(** * The extent client of sdk/data: a shallow embedding of
      [sdk/data/extent_client.go] and the properties of its engine facade.

    The facade ([ExtentClient]) is embedded as state-passing code over a
    [World]: the client record, the heap of streamer objects the registry
    points to, the process-wide connection pool and the state of everything
    outside the process.  The streamer, the extent cache, the data-partition
    wrapper and the master client live in other files of the package; their
    methods are the fields of the interface [Externals], and every call of
    one of them is recorded in the trace of the facade operation that made
    it.  The model is sequential: segment locks, goroutines and channels are
    not represented beyond the events that mention them. *)

From Stdlib Require Import ZArith String SpecFloat Lia.
From stdpp Require Import gmap strings list fin_maps pretty.

Open Scope Z_scope.

(** ** Machine integers

    Go's [int] and [int64] are 64-bit two's complement on the platforms the
    client is built for; [uint64] and [uint32] are carried by [N]. *)

Module GoInt.

Definition min_int : Z := - 2 ^ 63.
Definition max_int : Z := 2 ^ 63 - 1.

(** The value an [int] computation is left with after wrap-around. *)
Definition wrap (z : Z) : Z := (z + 2 ^ 63) mod 2 ^ 64 - 2 ^ 63.

Definition in_range (z : Z) : Prop := min_int <= z <= max_int.

Definition add (a b : Z) : Z := wrap (a + b).
Definition sub (a b : Z) : Z := wrap (a - b).
Definition mul (a b : Z) : Z := wrap (a * b).

(** [uint64(x)] and [uint32(x)] of a signed [x]. *)
Definition to_uint64 (z : Z) : N := Z.to_N (z mod 2 ^ 64).
Definition to_uint32 (z : Z) : N := Z.to_N (z mod 2 ^ 32).

(** [len(data)]. *)
Definition len {A} (l : list A) : Z := Z.of_nat (length l).

End GoInt.

(** ** [rate.Limit]: a float64

    golang.org/x/time/rate declares [type Limit float64] and
    [const Inf = Limit(math.MaxFloat64)].  The binary64 values are those of
    the Standard Library's [spec_float]; integer conversions round to
    nearest even, as the hardware does. *)

Module Rate.

Definition Limit : Type := spec_float.

Definition prec : Z := 53.
Definition emax : Z := 1024.

(** [math.MaxFloat64] = (2^53 - 1) * 2^971. *)
Definition Inf : Limit := S754_finite false (2 ^ 53 - 1) 971.

(** [rate.Limit(v)] for an integer [v] (signed or unsigned). *)
Definition of_int (v : Z) : Limit := binary_normalize prec emax v 0 false.

(** The integer part of a finite float, truncated toward zero. *)
Definition trunc (f : Limit) : option Z :=
  match f with
  | S754_zero _ => Some 0
  | S754_finite s m e =>
      let a := if 0 <=? e then Z.shiftl (Z.pos m) e
               else Z.shiftr (Z.pos m) (- e) in
      Some (if s then - a else a)
  | S754_infinity _ | S754_nan => None
  end.

(** [int(f)].  Go leaves the result of converting a float that an [int]
    cannot hold to the implementation; the amd64 compiler emits
    CVTTSD2SQ, which then yields the "integer indefinite" value
    0x8000000000000000.  [getRate] below depends on it. *)
Definition to_int (f : Limit) : Z :=
  match trunc f with
  | Some z => if (GoInt.min_int <=? z) && (z <=? GoInt.max_int) then z
              else GoInt.min_int
  | None => GoInt.min_int
  end.

(** [rate.Limiter], as far as the client uses it: the limit and the burst.
    The bucket's tokens and clock are not modelled. *)
Record Limiter : Type := NewLimiter { limit : Limit; burst : Z }.

Definition SetLimit (l : Limit) (lim : Limiter) : Limiter :=
  {| limit := l; burst := burst lim |}.

End Rate.

(** ** Errors and strings *)

(** A Go [error] is identified with its message; [nil] is [None]. *)
Definition error : Type := string.

(** [fmt.Sprintf("%v", v)] for integers. *)
Definition fmt_v (v : Z) : string := pretty v.
Definition fmt_u (v : N) : string := pretty v.

(** [strings.Contains(s, substr)]. *)
Fixpoint strings_Contains (s substr : string) : bool :=
  String.prefix substr s ||
  match s with
  | EmptyString => false
  | String _ s' => strings_Contains s' substr
  end.

(** A function that can panic (nil dereference, closing a closed channel). *)
Inductive outcome (A : Type) : Type :=
| Return (a : A)
| Panic (msg : string).
Arguments Return {A} a.
Arguments Panic {A} msg.

(** ** Constants of package [unit]

    Modelled from the spec: util/unit is not among the sources; the spec
    gives the maximum (and default) extent size as 128 MiB and the minimum
    as 1 MiB. *)
Module unit_.
Definition ExtentSize : Z := 128 * 1024 * 1024.
Definition MinExtentSize : Z := 1024 * 1024.
End unit_.

Definition MaxMountRetryLimit : Z := 5.
Definition defaultReadLimitRate : Rate.Limit := Rate.Inf.
Definition defaultReadLimitBurst : Z := 128.
Definition defaultWriteLimitRate : Rate.Limit := Rate.Inf.
Definition defaultWriteLimitBurst : Z := 128.
Definition defaultMaxAlignSize : Z := 128 * 1024.
Definition NoUseTinyExtent : Z := -1.

(** ** Data model *)

(** [proto.ExtentKey], the fields [SyncWrite] fills in. *)
Record ExtentKey : Type := {
  PartitionId : N;
  ExtentId : N;
  ExtentOffset : N;
  ek_FileOffset : N;
  ek_Size : N
}.

(** [ExtentRequest]: a nil [ExtentKey] marks an append. *)
Record ExtentRequest : Type := {
  FileOffset : N;
  Size : Z;
  Data : list Byte.byte;
  req_ExtentKey : option ExtentKey
}.

Record DataPartition : Type := { PartitionID : N }.

(** Modelled from the spec: the extent cache of a streamer (section 3),
    reduced to what the facade reads: the [initialized] flag and the cached
    size and generation that [Size()] reports. *)
Record ExtentCache : Type := {
  initialized : bool;
  size : N;
  gen : N;
  keys : list ExtentKey
}.

Definition ExtentCache_Size (e : ExtentCache) : N * N := (size e, gen e).

(** The requests a streamer's worker serves (spec, section 3). *)
Inductive Request : Type :=
| OpenRequest
| WriteRequest (offset : N) (data : list Byte.byte) (direct overWriteBuffer : bool)
| FlushRequest
| ReleaseRequest
| MustReleaseRequest
| TruncRequest (size : N)
| EvictRequest
| ExtentMergeRequest.

(** Modelled from the spec: the per-inode streamer (section 3).  [once] is
    the one-shot latch of the first extent fetch ([sync.Once]: true when it
    has fired), [request] the inbound queue, [overWriteReq] the overwrite
    buffer. *)
Record Streamer : Type := {
  inode : N;
  once : bool;
  extents : ExtentCache;
  overWriteReq : list (ExtentRequest * bool);
  request : list Request;
  refcnt : Z
}.

Definition set_once (b : bool) (s : Streamer) : Streamer :=
  {| inode := inode s; once := b; extents := extents s;
     overWriteReq := overWriteReq s; request := request s;
     refcnt := refcnt s |}.

(** Modelled from the spec: the data-partition wrapper, reduced to the
    volume name and the flags the facade reads or sets. *)
Record Wrapper : Type := {
  volName : string;
  clusterName : string;
  volNotExists : bool;
  wr_followerRead : bool;
  wr_nearRead : bool;
  enableWriteCache : bool;
  umpJmtpAddr : string
}.

Definition Wrapper_VolNotExists (w : Wrapper) : bool := volNotExists w.

(** [proto.LimitInfo], the fields [updateConfig] reads. *)
Record LimitInfo : Type := {
  ClientReadVolRateLimitMap : gmap string N;
  ClientWriteVolRateLimitMap : gmap string N;
  ExtentMergeIno : gmap string (list N);
  li_ExtentMergeSleepMs : N
}.

(** [ExtentConfig], without the callbacks into the metadata service. *)
Record ExtentConfig : Type := {
  Volume : string;
  Masters : list string;
  FollowerRead : bool;
  NearRead : bool;
  ReadRate : Z;
  WriteRate : Z;
  AlignSize : Z;
  TinySize : Z;
  cfg_ExtentSize : Z;
  MaxExtentNumPerAlignArea : Z;
  ForceAlignMerge : bool;
  AutoFlush : bool;
  cfg_ExtentMerge : bool
}.

(** A streamer is referred to by the address of its object. *)
Abbreviation ptr := N (only parsing).

(** [ExtentClient].  The sharded [ConcurrentStreamerMap] is one finite map
    from inode to streamer: a segment is chosen by the inode and holds the
    streamers of its inodes only, so looking an inode up in its segment is
    looking it up in the union.  [stopC] is true once the channel is
    closed. *)
Record ExtentClient : Type := {
  streamerConcurrentMap : gmap N ptr;
  originReadRate : Z;
  originWriteRate : Z;
  readRate : N;
  writeRate : N;
  readLimiter : Rate.Limiter;
  writeLimiter : Rate.Limiter;
  dataWrapper : Wrapper;
  followerRead : bool;
  alignSize : Z;
  maxExtentNumPerAlignArea : Z;
  forceAlignMerge : bool;
  tinySize : Z;
  extentSize : Z;
  autoFlush : bool;
  stopC : bool;
  extentMerge : bool;
  extentMergeIno : list N;
  ExtentMergeSleepMs : N
}.

(** Field assignments [client.f = v]. *)

Definition set_streamerConcurrentMap (v : gmap N ptr) (c : ExtentClient) : ExtentClient :=
  {| streamerConcurrentMap := v; originReadRate := originReadRate c;
     originWriteRate := originWriteRate c; readRate := readRate c;
     writeRate := writeRate c; readLimiter := readLimiter c;
     writeLimiter := writeLimiter c; dataWrapper := dataWrapper c;
     followerRead := followerRead c; alignSize := alignSize c;
     maxExtentNumPerAlignArea := maxExtentNumPerAlignArea c;
     forceAlignMerge := forceAlignMerge c; tinySize := tinySize c;
     extentSize := extentSize c; autoFlush := autoFlush c; stopC := stopC c;
     extentMerge := extentMerge c; extentMergeIno := extentMergeIno c;
     ExtentMergeSleepMs := ExtentMergeSleepMs c |}.

Definition set_originReadRate (v : Z) (c : ExtentClient) : ExtentClient :=
  {| streamerConcurrentMap := streamerConcurrentMap c; originReadRate := v;
     originWriteRate := originWriteRate c; readRate := readRate c;
     writeRate := writeRate c; readLimiter := readLimiter c;
     writeLimiter := writeLimiter c; dataWrapper := dataWrapper c;
     followerRead := followerRead c; alignSize := alignSize c;
     maxExtentNumPerAlignArea := maxExtentNumPerAlignArea c;
     forceAlignMerge := forceAlignMerge c; tinySize := tinySize c;
     extentSize := extentSize c; autoFlush := autoFlush c; stopC := stopC c;
     extentMerge := extentMerge c; extentMergeIno := extentMergeIno c;
     ExtentMergeSleepMs := ExtentMergeSleepMs c |}.

Definition set_originWriteRate (v : Z) (c : ExtentClient) : ExtentClient :=
  {| streamerConcurrentMap := streamerConcurrentMap c;
     originReadRate := originReadRate c; originWriteRate := v;
     readRate := readRate c; writeRate := writeRate c;
     readLimiter := readLimiter c; writeLimiter := writeLimiter c;
     dataWrapper := dataWrapper c; followerRead := followerRead c;
     alignSize := alignSize c;
     maxExtentNumPerAlignArea := maxExtentNumPerAlignArea c;
     forceAlignMerge := forceAlignMerge c; tinySize := tinySize c;
     extentSize := extentSize c; autoFlush := autoFlush c; stopC := stopC c;
     extentMerge := extentMerge c; extentMergeIno := extentMergeIno c;
     ExtentMergeSleepMs := ExtentMergeSleepMs c |}.

Definition set_readRate (v : N) (c : ExtentClient) : ExtentClient :=
  {| streamerConcurrentMap := streamerConcurrentMap c;
     originReadRate := originReadRate c;
     originWriteRate := originWriteRate c; readRate := v;
     writeRate := writeRate c; readLimiter := readLimiter c;
     writeLimiter := writeLimiter c; dataWrapper := dataWrapper c;
     followerRead := followerRead c; alignSize := alignSize c;
     maxExtentNumPerAlignArea := maxExtentNumPerAlignArea c;
     forceAlignMerge := forceAlignMerge c; tinySize := tinySize c;
     extentSize := extentSize c; autoFlush := autoFlush c; stopC := stopC c;
     extentMerge := extentMerge c; extentMergeIno := extentMergeIno c;
     ExtentMergeSleepMs := ExtentMergeSleepMs c |}.

Definition set_writeRate (v : N) (c : ExtentClient) : ExtentClient :=
  {| streamerConcurrentMap := streamerConcurrentMap c;
     originReadRate := originReadRate c;
     originWriteRate := originWriteRate c; readRate := readRate c;
     writeRate := v; readLimiter := readLimiter c;
     writeLimiter := writeLimiter c; dataWrapper := dataWrapper c;
     followerRead := followerRead c; alignSize := alignSize c;
     maxExtentNumPerAlignArea := maxExtentNumPerAlignArea c;
     forceAlignMerge := forceAlignMerge c; tinySize := tinySize c;
     extentSize := extentSize c; autoFlush := autoFlush c; stopC := stopC c;
     extentMerge := extentMerge c; extentMergeIno := extentMergeIno c;
     ExtentMergeSleepMs := ExtentMergeSleepMs c |}.

Definition set_readLimiter (v : Rate.Limiter) (c : ExtentClient) : ExtentClient :=
  {| streamerConcurrentMap := streamerConcurrentMap c;
     originReadRate := originReadRate c;
     originWriteRate := originWriteRate c; readRate := readRate c;
     writeRate := writeRate c; readLimiter := v;
     writeLimiter := writeLimiter c; dataWrapper := dataWrapper c;
     followerRead := followerRead c; alignSize := alignSize c;
     maxExtentNumPerAlignArea := maxExtentNumPerAlignArea c;
     forceAlignMerge := forceAlignMerge c; tinySize := tinySize c;
     extentSize := extentSize c; autoFlush := autoFlush c; stopC := stopC c;
     extentMerge := extentMerge c; extentMergeIno := extentMergeIno c;
     ExtentMergeSleepMs := ExtentMergeSleepMs c |}.

Definition set_writeLimiter (v : Rate.Limiter) (c : ExtentClient) : ExtentClient :=
  {| streamerConcurrentMap := streamerConcurrentMap c;
     originReadRate := originReadRate c;
     originWriteRate := originWriteRate c; readRate := readRate c;
     writeRate := writeRate c; readLimiter := readLimiter c;
     writeLimiter := v; dataWrapper := dataWrapper c;
     followerRead := followerRead c; alignSize := alignSize c;
     maxExtentNumPerAlignArea := maxExtentNumPerAlignArea c;
     forceAlignMerge := forceAlignMerge c; tinySize := tinySize c;
     extentSize := extentSize c; autoFlush := autoFlush c; stopC := stopC c;
     extentMerge := extentMerge c; extentMergeIno := extentMergeIno c;
     ExtentMergeSleepMs := ExtentMergeSleepMs c |}.

Definition set_dataWrapper (v : Wrapper) (c : ExtentClient) : ExtentClient :=
  {| streamerConcurrentMap := streamerConcurrentMap c;
     originReadRate := originReadRate c;
     originWriteRate := originWriteRate c; readRate := readRate c;
     writeRate := writeRate c; readLimiter := readLimiter c;
     writeLimiter := writeLimiter c; dataWrapper := v;
     followerRead := followerRead c; alignSize := alignSize c;
     maxExtentNumPerAlignArea := maxExtentNumPerAlignArea c;
     forceAlignMerge := forceAlignMerge c; tinySize := tinySize c;
     extentSize := extentSize c; autoFlush := autoFlush c; stopC := stopC c;
     extentMerge := extentMerge c; extentMergeIno := extentMergeIno c;
     ExtentMergeSleepMs := ExtentMergeSleepMs c |}.

Definition set_extentSize (v : Z) (c : ExtentClient) : ExtentClient :=
  {| streamerConcurrentMap := streamerConcurrentMap c;
     originReadRate := originReadRate c;
     originWriteRate := originWriteRate c; readRate := readRate c;
     writeRate := writeRate c; readLimiter := readLimiter c;
     writeLimiter := writeLimiter c; dataWrapper := dataWrapper c;
     followerRead := followerRead c; alignSize := alignSize c;
     maxExtentNumPerAlignArea := maxExtentNumPerAlignArea c;
     forceAlignMerge := forceAlignMerge c; tinySize := tinySize c;
     extentSize := v; autoFlush := autoFlush c; stopC := stopC c;
     extentMerge := extentMerge c; extentMergeIno := extentMergeIno c;
     ExtentMergeSleepMs := ExtentMergeSleepMs c |}.

Definition set_stopC (v : bool) (c : ExtentClient) : ExtentClient :=
  {| streamerConcurrentMap := streamerConcurrentMap c;
     originReadRate := originReadRate c;
     originWriteRate := originWriteRate c; readRate := readRate c;
     writeRate := writeRate c; readLimiter := readLimiter c;
     writeLimiter := writeLimiter c; dataWrapper := dataWrapper c;
     followerRead := followerRead c; alignSize := alignSize c;
     maxExtentNumPerAlignArea := maxExtentNumPerAlignArea c;
     forceAlignMerge := forceAlignMerge c; tinySize := tinySize c;
     extentSize := extentSize c; autoFlush := autoFlush c; stopC := v;
     extentMerge := extentMerge c; extentMergeIno := extentMergeIno c;
     ExtentMergeSleepMs := ExtentMergeSleepMs c |}.

Definition set_extentMergeIno (v : list N) (c : ExtentClient) : ExtentClient :=
  {| streamerConcurrentMap := streamerConcurrentMap c;
     originReadRate := originReadRate c;
     originWriteRate := originWriteRate c; readRate := readRate c;
     writeRate := writeRate c; readLimiter := readLimiter c;
     writeLimiter := writeLimiter c; dataWrapper := dataWrapper c;
     followerRead := followerRead c; alignSize := alignSize c;
     maxExtentNumPerAlignArea := maxExtentNumPerAlignArea c;
     forceAlignMerge := forceAlignMerge c; tinySize := tinySize c;
     extentSize := extentSize c; autoFlush := autoFlush c; stopC := stopC c;
     extentMerge := extentMerge c; extentMergeIno := v;
     ExtentMergeSleepMs := ExtentMergeSleepMs c |}.

Definition set_ExtentMergeSleepMs (v : N) (c : ExtentClient) : ExtentClient :=
  {| streamerConcurrentMap := streamerConcurrentMap c;
     originReadRate := originReadRate c;
     originWriteRate := originWriteRate c; readRate := readRate c;
     writeRate := writeRate c; readLimiter := readLimiter c;
     writeLimiter := writeLimiter c; dataWrapper := dataWrapper c;
     followerRead := followerRead c; alignSize := alignSize c;
     maxExtentNumPerAlignArea := maxExtentNumPerAlignArea c;
     forceAlignMerge := forceAlignMerge c; tinySize := tinySize c;
     extentSize := extentSize c; autoFlush := autoFlush c; stopC := stopC c;
     extentMerge := extentMerge c; extentMergeIno := extentMergeIno c;
     ExtentMergeSleepMs := v |}.

(** ** The world a facade operation runs in

    [heap] gives the object every streamer pointer refers to; the registry
    of the client holds such pointers, and a pointer the facade has fetched
    stays valid whatever happens to the registry.  [StreamConnPool] is the
    package-level connection pool ([None] is nil).  [env] is everything
    outside the process: the clock, the network, the data nodes, the master
    and the metadata service. *)
Record World (Env : Type) : Type := {
  client : ExtentClient;
  heap : ptr -> Streamer;
  StreamConnPool : option unit;
  env : Env
}.
Arguments client {Env} w.
Arguments heap {Env} w p.
Arguments StreamConnPool {Env} w.
Arguments env {Env} w.

Definition set_client {Env} (c : ExtentClient) (w : World Env) : World Env :=
  {| client := c; heap := heap w; StreamConnPool := StreamConnPool w;
     env := env w |}.

Definition set_heap {Env} (h : ptr -> Streamer) (w : World Env) : World Env :=
  {| client := client w; heap := h; StreamConnPool := StreamConnPool w;
     env := env w |}.

Definition set_StreamConnPool {Env} (p : option unit) (w : World Env)
  : World Env :=
  {| client := client w; heap := heap w; StreamConnPool := p; env := env w |}.

(** Assignment through the pointer [s]: the object becomes [f] of itself. *)
Definition update_streamer {Env} (s : ptr) (f : Streamer -> Streamer)
  (w : World Env) : World Env :=
  set_heap (fun p => if N.eqb p s then f (heap w p) else heap w p) w.

(** ** Calls that leave the facade

    A call of a streamer method is logged with its arguments and with what
    it returned. *)
Inductive StreamerCall : Type :=
| CallIssueOpenRequest (err : option error)
| CallIssueReleaseRequest (err : option error)
| CallIssueMustReleaseRequest (err : option error)
| CallIssueEvictRequest (err : option error)
| CallDoneSend
| CallWgWait
| CallGetExtents (err : option error)
| CallPrepareRequests (offset : N) (size : Z) (data : list Byte.byte)
    (requests : list ExtentRequest)
| CallAppendOverWriteReq (req : ExtentRequest) (direct : bool) (writeSize : Z)
| CallIssueWriteRequest (offset : N) (data : list Byte.byte)
    (direct overWriteBuffer : bool) (res : Z * bool * option error)
| CallWriteToNewExtent (req : ExtentRequest) (direct : bool)
    (res : option DataPartition * Z * Z * option error)
| CallWriteToSpecificExtent (req : ExtentRequest) (extID extentOffset : Z)
    (dp : option DataPartition) (direct : bool) (res : Z * option error)
| CallIssueTruncRequest (size : N) (err : option error)
| CallIssueFlushRequest (err : option error)
| CallUpdateExpiredExtentCache
| CallRead (data : list Byte.byte) (offset : N) (size : Z)
    (res : list Byte.byte * Z * bool * option error)
| CallIssueExtentMergeRequest (res : bool * option error).

Inductive Event : Type :=
| EvNewStreamer (inode : N) (appendWriteBuffer readAhead : bool) (s : ptr)
| EvStreamer (inode : N) (s : ptr) (c : StreamerCall)
| EvCloseStopC
| EvWgWait
| EvWrapperStop
| EvConnPoolClose
| EvGetLimitInfo (volName : string) (res : LimitInfo * option error)
| EvExtentMergeChanSend.

(** ** The rest of the package, as an interface

    The methods of [Streamer], [ExtentCache], [Wrapper] and of the master
    client that the facade calls, the error values of package [proto] and
    the constant of package [unit] that the spec leaves open.  A method with
    effects maps the world to the world after the call and its results;
    [Wrapper.InitFollowerRead] and [Wrapper.SetNearRead], which the
    constructor calls on the wrapper before the client holds it, map the
    wrapper to the wrapper after the call. *)
Class Externals (Env : Type) : Type := {
  ErrVolNotExists : error;
  ErrGetExtentsFailed : error;
  ExtentNotFoundError : error;
  errors_Trace : error -> string -> error;
  DefaultTinySizeLimit : Z;

  NewStreamer : N -> bool -> bool -> World Env -> World Env * ptr;
  IssueOpenRequest : ptr -> World Env -> World Env * option error;
  IssueReleaseRequest : ptr -> World Env -> World Env * option error;
  IssueMustReleaseRequest : ptr -> World Env -> World Env * option error;
  IssueEvictRequest : ptr -> World Env -> World Env * option error;
  GetExtents : ptr -> World Env -> World Env * option error;
  PrepareRequests :
    ptr -> N -> Z -> list Byte.byte -> World Env ->
    World Env * list ExtentRequest;
  appendOverWriteReq : ptr -> ExtentRequest -> bool -> World Env -> World Env * Z;
  IssueWriteRequest :
    ptr -> N -> list Byte.byte -> bool -> bool -> World Env ->
    World Env * (Z * bool * option error);
  writeToNewExtent :
    ptr -> ExtentRequest -> bool -> World Env ->
    World Env * (option DataPartition * Z * Z * option error);
  writeToSpecificExtent :
    ptr -> ExtentRequest -> Z -> Z -> option DataPartition -> bool ->
    World Env -> World Env * (Z * option error);
  IssueTruncRequest : ptr -> N -> World Env -> World Env * option error;
  IssueFlushRequest : ptr -> World Env -> World Env * option error;
  UpdateExpiredExtentCache : ptr -> World Env -> World Env * unit;
  read :
    ptr -> list Byte.byte -> N -> Z -> World Env ->
    World Env * (list Byte.byte * Z * bool * option error);
  IsExpired : ptr -> Z -> World Env -> bool;
  IssueExtentMergeRequest : ptr -> World Env -> World Env * (bool * option error);

  Wrapper_InitFollowerRead : bool -> Wrapper -> Wrapper;
  Wrapper_SetNearRead : bool -> Wrapper -> Wrapper;
  Wrapper_Stop : World Env -> World Env * unit;
  ConnPool_Close : World Env -> World Env * unit;
  GetLimitInfo : string -> World Env -> World Env * (LimitInfo * option error)
}.

(** ** State and trace monad *)

Definition M (Env A : Type) : Type := World Env -> A * World Env * list Event.

Definition ret {Env A} (a : A) : M Env A := fun w => (a, w, []).

Definition bind {Env A B} (m : M Env A) (k : A -> M Env B) : M Env B :=
  fun w =>
    let '(a, w1, t1) := m w in
    let '(b, w2, t2) := k a w1 in
    (b, w2, t1 ++ t2).

Definition gets {Env A} (f : World Env -> A) : M Env A := fun w => (f w, w, []).

Definition modify {Env} (f : World Env -> World Env) : M Env unit :=
  fun w => (tt, f w, []).

Definition emit {Env} (e : Event) : M Env unit := fun w => (tt, w, [e]).

(** Call an external method and log it with its result. *)
Definition call {Env R} (h : World Env -> World Env * R) (ev : R -> Event)
  : M Env R :=
  fun w => let '(w1, r) := h w in (r, w1, [ev r]).

Notation "'let*' x ':=' m 'in' k" := (bind m (fun x => k))
  (at level 10, x pattern, m at level 100, k at level 200).
Notation "'run' m 'then' k" := (bind m (fun _ => k))
  (at level 10, m at level 100, k at level 200).

Definition result {Env A} (m : M Env A) (w : World Env) : A := (m w).1.1.
Definition final {Env A} (m : M Env A) (w : World Env) : World Env := (m w).1.2.
Definition trace {Env A} (m : M Env A) (w : World Env) : list Event := (m w).2.

(** ** Extent size, rate control and construction: the client alone *)

(** The doubling loop of [SetExtentSize].  An [int] can double 64 times
    before nothing is left of it, which bounds the fuel; [None] stands for a
    loop that never leaves. *)
Fixpoint SetExtentSize_loop (fuel : nat) (i size : Z) : option Z :=
  match fuel with
  | O => None
  | S fuel' =>
      if i >? size then Some i
      else SetExtentSize_loop fuel' (GoInt.mul i 2) size
  end.

Definition SetExtentSize (size : Z) (c : ExtentClient) : option ExtentClient :=
  if size =? 0 then Some (set_extentSize unit_.ExtentSize c)
  else if size >? unit_.ExtentSize then
    Some (set_extentSize unit_.ExtentSize c)
  else if size <? unit_.MinExtentSize then
    Some (set_extentSize unit_.MinExtentSize c)
  else if negb (Z.land size (GoInt.sub size 1) =? 0) then
    match SetExtentSize_loop 64 unit_.MinExtentSize size with
    | Some i => Some (set_extentSize i c)
    | None => None
    end
  else Some (set_extentSize size c).

Definition getRate (lim : Rate.Limiter) : string :=
  let val := Rate.to_int (Rate.limit lim) in
  if val >? 0 then fmt_v val else "unlimited".

Definition newline : string := String (Ascii.ascii_of_nat 10) EmptyString.

Definition GetRate (c : ExtentClient) : string :=
  "read: " +:+ getRate (readLimiter c) +:+ newline +:+
  "write: " +:+ getRate (writeLimiter c) +:+ newline.

Definition setRate (lim : Rate.Limiter) (val : Z) : Rate.Limiter * string :=
  if val >? 0 then (Rate.SetLimit (Rate.of_int val) lim, fmt_v val)
  else (Rate.SetLimit Rate.Inf lim, "unlimited"%string).

Definition SetReadRate (val : Z) (c : ExtentClient) : ExtentClient * string :=
  let c1 := set_originReadRate val c in
  let '(lim, s) := setRate (readLimiter c1) val in
  (set_readLimiter lim c1, s).

Definition SetWriteRate (val : Z) (c : ExtentClient) : ExtentClient * string :=
  let c1 := set_originWriteRate val c in
  let '(lim, s) := setRate (writeLimiter c1) val in
  (set_writeLimiter lim c1, s).

(** [v, ok = m[k]]. *)
Definition map_index (m : gmap string N) (k : string) : N * bool :=
  match m !! k with
  | Some v => (v, true)
  | None => (0%N, false)
  end.

(** [ConcurrentStreamerMap.Keys()]. *)
Definition Keys (m : gmap N ptr) : list N := (map_to_list m).*1.

Section Facade.

Context {Env : Type} {X : Externals Env}.

(** [NewExtentClient], from the point where the data-partition wrapper
    exists; the background tasks it starts are not part of the state.
    [None] only if the loop of [SetExtentSize] does not leave. *)
Definition NewExtentClient (config : ExtentConfig) (wrapper : Wrapper)
  : option ExtentClient :=
  let wrapper :=
    Wrapper_SetNearRead (NearRead config)
      (Wrapper_InitFollowerRead (FollowerRead config) wrapper) in
  let tiny := if TinySize config =? 0 then DefaultTinySizeLimit
              else TinySize config in
  let tiny := if tiny =? NoUseTinyExtent then 0 else tiny in
  let '(readLimit, oriRead) :=
    if ReadRate config <=? 0 then (defaultReadLimitRate, 0)
    else (Rate.of_int (ReadRate config), ReadRate config) in
  let '(writeLimit, oriWrite) :=
    if WriteRate config <=? 0 then (defaultWriteLimitRate, 0)
    else (Rate.of_int (WriteRate config), WriteRate config) in
  let align := if AlignSize config >? defaultMaxAlignSize
               then defaultMaxAlignSize else AlignSize config in
  SetExtentSize (cfg_ExtentSize config)
    {| streamerConcurrentMap := ∅;
       originReadRate := oriRead;
       originWriteRate := oriWrite;
       readRate := 0;
       writeRate := 0;
       readLimiter := Rate.NewLimiter readLimit defaultReadLimitBurst;
       writeLimiter := Rate.NewLimiter writeLimit defaultWriteLimitBurst;
       dataWrapper := wrapper;
       followerRead := false;
       alignSize := align;
       maxExtentNumPerAlignArea := MaxExtentNumPerAlignArea config;
       forceAlignMerge := ForceAlignMerge config;
       tinySize := tiny;
       extentSize := 0;
       autoFlush := AutoFlush config;
       stopC := false;
       extentMerge := cfg_ExtentMerge config;
       extentMergeIno := [];
       ExtentMergeSleepMs := 0 |}.

(** *** Streams *)

Definition GetStreamer (inode : N) : M Env (option ptr) :=
  gets (fun w => streamerConcurrentMap (client w) !! inode).

Definition streamer_call {R} (inode : N) (s : ptr)
  (h : World Env -> World Env * R) (c : R -> StreamerCall) : M Env R :=
  call h (fun r => EvStreamer inode s (c r)).

(** [s.once.Do(f)]. *)
Definition once_Do (s : ptr) (f : M Env unit) : M Env unit :=
  let* fired := gets (fun w => once (heap w s)) in
  if fired then ret tt
  else run f then modify (update_streamer s (set_once true)).

(** [s.once.Do(func() { s.GetExtents(ctx) })]: the error is dropped. *)
Definition fetch_once (inode : N) (s : ptr) : M Env unit :=
  once_Do s (run streamer_call inode s (GetExtents s) CallGetExtents
             then ret tt).

Definition OpenStream (inode : N) (appendWriteBuffer readAhead : bool)
  : M Env (option error) :=
  let* found := gets (fun w => streamerConcurrentMap (client w) !! inode) in
  let* s :=
    match found with
    | Some s => ret s
    | None =>
        let* s := call (NewStreamer inode appendWriteBuffer readAhead)
                    (EvNewStreamer inode appendWriteBuffer readAhead) in
        run modify (fun w =>
              set_client
                (set_streamerConcurrentMap
                   (<[inode:=s]> (streamerConcurrentMap (client w)))
                   (client w)) w)
        then ret s
    end in
  streamer_call inode s (IssueOpenRequest s) CallIssueOpenRequest.

Definition CloseStream (inode : N) : M Env (option error) :=
  let* found := gets (fun w => streamerConcurrentMap (client w) !! inode) in
  match found with
  | None => ret None
  | Some s => streamer_call inode s (IssueReleaseRequest s) CallIssueReleaseRequest
  end.

Definition MustCloseStream (inode : N) : M Env (option error) :=
  let* found := gets (fun w => streamerConcurrentMap (client w) !! inode) in
  match found with
  | None => ret None
  | Some s =>
      streamer_call inode s (IssueMustReleaseRequest s)
        CallIssueMustReleaseRequest
  end.

Definition EvictStream (inode : N) : M Env (option error) :=
  let* found := gets (fun w => streamerConcurrentMap (client w) !! inode) in
  match found with
  | None => ret None
  | Some s =>
      let* err := streamer_call inode s (IssueEvictRequest s)
                    CallIssueEvictRequest in
      match err with
      | Some e => ret (Some e)
      | None =>
          run emit (EvStreamer inode s CallDoneSend) then
          run emit (EvStreamer inode s CallWgWait) then
          ret None
      end
  end.

Definition RefreshExtentsCache (inode : N) : M Env (option error) :=
  let* found := GetStreamer inode in
  match found with
  | None =>
      ret (Some ("stream is not opened yet, inode:" +:+ fmt_u inode))
  | Some s => streamer_call inode s (GetExtents s) CallGetExtents
  end.

Definition FileSize (inode : N) : M Env (N * N * bool) :=
  let* found := GetStreamer inode in
  match found with
  | None => ret (0%N, 0%N, false)
  | Some s =>
      let* sg := gets (fun w => ExtentCache_Size (extents (heap w s))) in
      ret (sg.1, sg.2, true)
  end.

(** *** Data path *)

Definition not_opened (prefix : string) : error :=
  "Prefix(" +:+ prefix +:+ "): stream is not opened yet".

(** The loop [for _, req := range requests { write += s.appendOverWriteReq(req, direct) }]. *)
Fixpoint Write_overWrite (inode : N) (s : ptr) (direct : bool)
  (requests : list ExtentRequest) (write : Z) : M Env Z :=
  match requests with
  | [] => ret write
  | req :: rest =>
      let* n := streamer_call inode s (appendOverWriteReq s req direct)
                  (CallAppendOverWriteReq req direct) in
      Write_overWrite inode s direct rest (GoInt.add write n)
  end.

(** The loop that looks for a request with a nil extent key. *)
Definition hasAppendWrite (requests : list ExtentRequest) : bool :=
  existsb (fun req => bool_decide (req_ExtentKey req = None)) requests.

Definition Write (inode offset : N) (data : list Byte.byte)
  (direct overWriteBuffer : bool) : M Env (Z * bool * option error) :=
  let* gone := gets (fun w => Wrapper_VolNotExists (dataWrapper (client w))) in
  if gone then ret (0, false, Some ErrVolNotExists)
  else
    let* found := GetStreamer inode in
    match found with
    | None =>
        let prefix := "Write{ino(" +:+ fmt_u inode +:+ ")offset(" +:+
                      fmt_u offset +:+ ")size(" +:+
                      fmt_v (GoInt.len data) +:+ ")}" in
        ret (0, false, Some (not_opened prefix))
    | Some s =>
        run fetch_once inode s then
        let* init := gets (fun w => initialized (extents (heap w s))) in
        if negb init then ret (0, false, Some ErrGetExtentsFailed)
        else if overWriteBuffer then
          let* requests :=
            streamer_call inode s
              (PrepareRequests s offset (GoInt.len data) data)
              (CallPrepareRequests offset (GoInt.len data) data) in
          if hasAppendWrite requests then
            streamer_call inode s
              (IssueWriteRequest s offset data direct overWriteBuffer)
              (CallIssueWriteRequest offset data direct overWriteBuffer)
          else
            let* write := Write_overWrite inode s direct requests 0 in
            ret (write, false, None)
        else
          streamer_call inode s
            (IssueWriteRequest s offset data direct overWriteBuffer)
            (CallIssueWriteRequest offset data direct overWriteBuffer)
    end.

Definition SyncWrite (inode offset : N) (data : list Byte.byte)
  : M Env (outcome (option DataPartition * Z * option ExtentKey * option error)) :=
  let* gone := gets (fun w => Wrapper_VolNotExists (dataWrapper (client w))) in
  if gone then ret (Return (None, 0, None, Some ErrVolNotExists))
  else
    let prefix := "SyncWrite{ino(" +:+ fmt_u inode +:+ ")offset(" +:+
                  fmt_u offset +:+ ")size(" +:+
                  fmt_v (GoInt.len data) +:+ ")}" in
    let* found := GetStreamer inode in
    match found with
    | None => ret (Return (None, 0, None, Some (not_opened prefix)))
    | Some s =>
        let oriReq := {| FileOffset := offset; Size := GoInt.len data;
                         Data := data; req_ExtentKey := None |} in
        let* (dp, exID, write, err) :=
          streamer_call inode s (writeToNewExtent s oriReq true)
            (CallWriteToNewExtent oriReq true) in
        match err with
        | Some e => ret (Return (dp, write, None, Some e))
        | None =>
            match dp with
            | None => ret (Panic "nil pointer dereference")
            | Some d =>
                let newEk := {| PartitionId := PartitionID d;
                                ExtentId := GoInt.to_uint64 exID;
                                ExtentOffset := 0;
                                ek_FileOffset := offset;
                                ek_Size := GoInt.to_uint32 (GoInt.len data) |} in
                ret (Return (dp, write, Some newEk, None))
            end
        end
    end.

Definition SyncWriteToSpecificExtent (dp : option DataPartition)
  (inode fileOffset : N) (extentOffset : Z) (data : list Byte.byte)
  (extID : Z) : M Env (Z * option error) :=
  let* gone := gets (fun w => Wrapper_VolNotExists (dataWrapper (client w))) in
  if gone then ret (0, Some ErrVolNotExists)
  else
    let prefix := "SyncWriteToExtent{ino(" +:+ fmt_u inode +:+
                  ")fileOffset(" +:+ fmt_u fileOffset +:+
                  ")extentOffset(" +:+ fmt_v extentOffset +:+
                  ")size(" +:+ fmt_v (GoInt.len data) +:+ ")}" in
    let* found := GetStreamer inode in
    match found with
    | None =>
        ret (0, Some ("prefix(" +:+ prefix +:+ "): stream is not opened yet"))
    | Some s =>
        let oriReq := {| FileOffset := fileOffset; Size := GoInt.len data;
                         Data := data; req_ExtentKey := None |} in
        streamer_call inode s
          (writeToSpecificExtent s oriReq extID extentOffset dp true)
          (CallWriteToSpecificExtent oriReq extID extentOffset dp true)
    end.

Definition Truncate (inode size : N) : M Env (option error) :=
  let* gone := gets (fun w => Wrapper_VolNotExists (dataWrapper (client w))) in
  if gone then ret (Some ErrVolNotExists)
  else
    let prefix := "Truncate{ino(" +:+ fmt_u inode +:+ ")size(" +:+
                  fmt_u size +:+ ")}" in
    let* found := GetStreamer inode in
    match found with
    | None => ret (Some (not_opened prefix))
    | Some s =>
        run fetch_once inode s then
        let* init := gets (fun w => initialized (extents (heap w s))) in
        if negb init then ret (Some ErrGetExtentsFailed)
        else
          let* err := streamer_call inode s (IssueTruncRequest s size)
                        (CallIssueTruncRequest size) in
          match err with
          | Some e => ret (Some (errors_Trace e prefix))
          | None => ret None
          end
    end.

Definition Flush (inode : N) : M Env (option error) :=
  let* gone := gets (fun w => Wrapper_VolNotExists (dataWrapper (client w))) in
  if gone then ret (Some ErrVolNotExists)
  else
    let* found := GetStreamer inode in
    match found with
    | None =>
        ret (Some ("Flush: stream is not opened yet, ino(" +:+
                   fmt_u inode +:+ ")"))
    | Some s => streamer_call inode s (IssueFlushRequest s) CallIssueFlushRequest
    end.

(** [Read] fills the caller's buffer [data]; the buffer as the call leaves
    it is the first component of the result. *)
Definition Read (inode : N) (data : list Byte.byte) (offset : N) (size : Z)
  : M Env (list Byte.byte * Z * bool * option error) :=
  if size =? 0 then ret (data, 0, false, None)
  else
    let* gone := gets (fun w => Wrapper_VolNotExists (dataWrapper (client w))) in
    if gone then ret (data, 0, false, Some ErrVolNotExists)
    else
      let* found := GetStreamer inode in
      match found with
      | None =>
          ret (data, 0, false,
               Some ("Read: stream is not opened yet, ino(" +:+
                     fmt_u inode +:+ ") offset(" +:+ fmt_u offset +:+
                     ") size(" +:+ fmt_v size +:+ ")"))
      | Some s =>
          run fetch_once inode s then
          let* init := gets (fun w => initialized (extents (heap w s))) in
          if negb init then ret (data, 0, false, Some ErrGetExtentsFailed)
          else
            run streamer_call inode s (UpdateExpiredExtentCache s)
                  (fun _ => CallUpdateExpiredExtentCache) then
            let* (data1, read1, hasHole1, err1) :=
              streamer_call inode s (read s data offset size)
                (CallRead data offset size) in
            match err1 with
            | None => ret (data1, read1, hasHole1, None)
            | Some e1 =>
                if strings_Contains e1 ExtentNotFoundError then
                  let* expired := gets (IsExpired s 1) in
                  if negb expired then ret (data1, read1, hasHole1, Some e1)
                  else
                    let* err2 := streamer_call inode s (IssueFlushRequest s)
                                   CallIssueFlushRequest in
                    match err2 with
                    | Some e2 => ret (data1, read1, hasHole1, Some e2)
                    | None =>
                        let* err3 := streamer_call inode s (GetExtents s)
                                       CallGetExtents in
                        match err3 with
                        | Some e3 => ret (data1, read1, hasHole1, Some e3)
                        | None =>
                            streamer_call inode s (read s data1 offset size)
                              (CallRead data1 offset size)
                        end
                    end
                else ret (data1, read1, hasHole1, Some e1)
            end
      end.

Definition ExtentMerge (inode : N) : M Env (bool * option error) :=
  let* found := GetStreamer inode in
  match found with
  | None => ret (true, Some "stream is not opened yet"%string)
  | Some s =>
      run fetch_once inode s then
      let* init := gets (fun w => initialized (extents (heap w s))) in
      if negb init then ret (true, Some ErrGetExtentsFailed)
      else
        streamer_call inode s (IssueExtentMergeRequest s)
          CallIssueExtentMergeRequest
  end.

(** *** Configuration refresh and shutdown *)

Definition updateConfig : M Env unit :=
  let* vol := gets (fun w => volName (dataWrapper (client w))) in
  let* (limitInfo, err) := call (GetLimitInfo vol) (EvGetLimitInfo vol) in
  match err with
  | Some _ => ret tt
  | None =>
      run modify (fun w =>
        let c := client w in
        let '(readRate, ok) := map_index (ClientReadVolRateLimitMap limitInfo) vol in
        let '(readRate, ok) :=
          if negb ok then map_index (ClientReadVolRateLimitMap limitInfo) ""
          else (readRate, ok) in
        let readRate :=
          if (negb ok || (readRate =? 0)%N) && (originReadRate c >? 0)
          then GoInt.to_uint64 (originReadRate c) else readRate in
        let c := set_readRate readRate c in
        let c :=
          if (0 <? readRate)%N then
            set_readLimiter
              (Rate.SetLimit (Rate.of_int (Z.of_N readRate)) (readLimiter c)) c
          else
            set_readLimiter
              (Rate.SetLimit defaultReadLimitRate (readLimiter c)) c in
        let '(writeRate, ok) := map_index (ClientWriteVolRateLimitMap limitInfo) vol in
        let '(writeRate, ok) :=
          if negb ok then map_index (ClientWriteVolRateLimitMap limitInfo) ""
          else (writeRate, ok) in
        let writeRate :=
          if (negb ok || (writeRate =? 0)%N) && (originWriteRate c >? 0)
          then GoInt.to_uint64 (originWriteRate c) else writeRate in
        let c := set_writeRate writeRate c in
        let c :=
          if (0 <? writeRate)%N then
            set_writeLimiter
              (Rate.SetLimit (Rate.of_int (Z.of_N writeRate)) (writeLimiter c)) c
          else
            set_writeLimiter
              (Rate.SetLimit defaultWriteLimitRate (writeLimiter c)) c in
        set_client c w) then
      let* merging := gets (fun w => extentMerge (client w)) in
      if merging then
        let target := default [] (ExtentMergeIno limitInfo !! vol) in
        let* current := gets (fun w => extentMergeIno (client w)) in
        run (if (length current =? 0)%nat && (0 <? length target)%nat
             then emit EvExtentMergeChanSend else ret tt) then
        modify (fun w =>
          set_client
            (set_ExtentMergeSleepMs (li_ExtentMergeSleepMs limitInfo)
               (set_extentMergeIno target (client w))) w)
      else ret tt
  end.

(** The loop of [Close] over the inodes of the registry. *)
Fixpoint Close_release (inodes : list N) : M Env unit :=
  match inodes with
  | [] => ret tt
  | inode :: rest =>
      run Flush inode then
      run MustCloseStream inode then
      run EvictStream inode then
      Close_release rest
  end.

(** Closing a channel that is closed already panics. *)
Definition Close : M Env (outcome (option error)) :=
  let* closed := gets (fun w => stopC (client w)) in
  if closed then ret (Panic "close of closed channel")
  else
    run modify (fun w => set_client (set_stopC true (client w)) w) then
    run emit EvCloseStopC then
    run emit EvWgWait then
    run call Wrapper_Stop (fun _ => EvWrapperStop) then
    let* inodes := gets (fun w => Keys (streamerConcurrentMap (client w))) in
    run Close_release inodes then
    ret (Return None).

Definition CloseConnPool : M Env unit :=
  let* pool := gets StreamConnPool in
  match pool with
  | Some _ =>
      run call ConnPool_Close (fun _ => EvConnPoolClose) then
      modify (set_StreamConnPool None)
  | None => ret tt
  end.

End Facade.

(** ** A stand-in for the rest of the package

    A small streamer, cache, wrapper and master on which the facade can be
    run: requests are queued on the streamer, overwrites are buffered,
    [read] answers from a script, the cache is expired or not as the
    environment says, and eviction removes the inode from the registry. *)
Module Sim.

Record Env : Type := {
  next_ptr : N;
  read_script : list (Z * bool * option error);
  cache_expired : bool;
  master : LimitInfo * option error
}.

Definition set_env (e : Env) (w : World Env) : World Env :=
  {| client := client w; heap := heap w;
     StreamConnPool := StreamConnPool w; env := e |}.

Definition enqueue (r : Request) (s : Streamer) : Streamer :=
  {| inode := inode s; once := once s; extents := extents s;
     overWriteReq := overWriteReq s; request := request s ++ [r];
     refcnt := refcnt s |}.

Definition buffer (req : ExtentRequest) (direct : bool) (s : Streamer)
  : Streamer :=
  {| inode := inode s; once := once s; extents := extents s;
     overWriteReq := overWriteReq s ++ [(req, direct)];
     request := request s; refcnt := refcnt s |}.

Definition mark_initialized (s : Streamer) : Streamer :=
  {| inode := inode s; once := once s;
     extents := {| initialized := true; size := size (extents s);
                   gen := gen (extents s); keys := keys (extents s) |};
     overWriteReq := overWriteReq s; request := request s;
     refcnt := refcnt s |}.

Definition fresh (ino : N) : Streamer :=
  {| inode := ino; once := false;
     extents := {| initialized := false; size := 0; gen := 0; keys := [] |};
     overWriteReq := []; request := []; refcnt := 0 |}.

(** One overwrite request on the first key when the range lies inside the
    file, one append request otherwise. *)
Definition prepare (e : ExtentCache) (offset : N) (sz : Z)
  (data : list Byte.byte) : list ExtentRequest :=
  if (Z.of_N offset + sz <=? Z.of_N (size e)) then
    [{| FileOffset := offset; Size := sz; Data := data;
        req_ExtentKey := head (keys e) |}]
  else
    [{| FileOffset := offset; Size := sz; Data := data;
        req_ExtentKey := None |}].

(** The stand-in wrapper stores the read policies it is given. *)
Definition InitFollowerRead (b : bool) (w : Wrapper) : Wrapper :=
  {| volName := volName w; clusterName := clusterName w;
     volNotExists := volNotExists w; wr_followerRead := b;
     wr_nearRead := wr_nearRead w; enableWriteCache := enableWriteCache w;
     umpJmtpAddr := umpJmtpAddr w |}.

Definition SetNearRead (b : bool) (w : Wrapper) : Wrapper :=
  {| volName := volName w; clusterName := clusterName w;
     volNotExists := volNotExists w; wr_followerRead := wr_followerRead w;
     wr_nearRead := b; enableWriteCache := enableWriteCache w;
     umpJmtpAddr := umpJmtpAddr w |}.

#[global] Instance externals : Externals Env := {|
  ErrVolNotExists := "vol not exists";
  ErrGetExtentsFailed := "get extents failed";
  ExtentNotFoundError := "extent does not exist";
  errors_Trace := fun e prefix => prefix +:+ ": " +:+ e;
  DefaultTinySizeLimit := 1024 * 1024;
  NewStreamer := fun ino _ _ w =>
    let p := next_ptr (env w) in
    (set_env {| next_ptr := N.succ p; read_script := read_script (env w);
                cache_expired := cache_expired (env w);
                master := master (env w) |}
       (update_streamer p (fun _ => fresh ino) w), p);
  IssueOpenRequest := fun s w => (update_streamer s (enqueue OpenRequest) w, None);
  IssueReleaseRequest := fun s w =>
    (update_streamer s (enqueue ReleaseRequest) w, None);
  IssueMustReleaseRequest := fun s w =>
    (update_streamer s (enqueue MustReleaseRequest) w, None);
  IssueEvictRequest := fun s w =>
    (set_client
       (set_streamerConcurrentMap
          (delete (inode (heap w s)) (streamerConcurrentMap (client w)))
          (client w)) w, None);
  GetExtents := fun s w => (update_streamer s mark_initialized w, None);
  PrepareRequests := fun s offset sz data w =>
    (w, prepare (extents (heap w s)) offset sz data);
  appendOverWriteReq := fun s req direct w =>
    (update_streamer s (buffer req direct) w, Size req);
  IssueWriteRequest := fun s offset data direct owb w =>
    (update_streamer s (enqueue (WriteRequest offset data direct owb)) w,
     (GoInt.len data, false, None));
  writeToNewExtent := fun s req direct w =>
    (w, (Some {| PartitionID := 1 |}, 1, Size req, None));
  writeToSpecificExtent := fun s req extID extentOffset dp direct w =>
    (w, (Size req, None));
  IssueTruncRequest := fun s sz w =>
    (update_streamer s (enqueue (TruncRequest sz)) w, None);
  IssueFlushRequest := fun s w =>
    (update_streamer s (enqueue FlushRequest) w, None);
  UpdateExpiredExtentCache := fun s w => (w, tt);
  read := fun s data offset sz w =>
    match read_script (env w) with
    | [] => (w, (data, sz, false, None))
    | (n, hole, err) :: rest =>
        (set_env {| next_ptr := next_ptr (env w); read_script := rest;
                    cache_expired := cache_expired (env w);
                    master := master (env w) |} w,
         (data, n, hole, err))
    end;
  IsExpired := fun s sec w => cache_expired (env w);
  IssueExtentMergeRequest := fun s w =>
    (update_streamer s (enqueue ExtentMergeRequest) w, (true, None));
  Wrapper_InitFollowerRead := InitFollowerRead;
  Wrapper_SetNearRead := SetNearRead;
  Wrapper_Stop := fun w => (w, tt);
  ConnPool_Close := fun w => (w, tt);
  GetLimitInfo := fun vol w => (w, master (env w))
|}.

Definition no_limits : LimitInfo :=
  {| ClientReadVolRateLimitMap := ∅; ClientWriteVolRateLimitMap := ∅;
     ExtentMergeIno := ∅; li_ExtentMergeSleepMs := 0 |}.

Definition wrapper0 (gone : bool) : Wrapper :=
  {| volName := "vol"; clusterName := "cluster"; volNotExists := gone;
     wr_followerRead := false; wr_nearRead := false;
     enableWriteCache := false; umpJmtpAddr := "" |}.

Definition config0 (readRate : Z) : ExtentConfig :=
  {| Volume := "vol"; Masters := []; FollowerRead := false;
     NearRead := false; ReadRate := readRate; WriteRate := 0;
     AlignSize := 4096; TinySize := 0; cfg_ExtentSize := 0;
     MaxExtentNumPerAlignArea := 0; ForceAlignMerge := false;
     AutoFlush := false; cfg_ExtentMerge := false |}.

(** A client as [NewExtentClient] leaves it (no read or write rate
    configured), with the volume reported missing or not. *)
Definition client0 (gone : bool) : ExtentClient :=
  default
    {| streamerConcurrentMap := ∅; originReadRate := 0;
       originWriteRate := 0; readRate := 0; writeRate := 0;
       readLimiter := Rate.NewLimiter Rate.Inf 128;
       writeLimiter := Rate.NewLimiter Rate.Inf 128;
       dataWrapper := wrapper0 gone; followerRead := false; alignSize := 0;
       maxExtentNumPerAlignArea := 0; forceAlignMerge := false;
       tinySize := 0; extentSize := 0; autoFlush := false; stopC := false;
       extentMerge := false; extentMergeIno := []; ExtentMergeSleepMs := 0 |}
    (NewExtentClient (config0 0) (wrapper0 gone)).

Definition env0 (script : list (Z * bool * option error)) (expired : bool)
  : Env :=
  {| next_ptr := 1; read_script := script; cache_expired := expired;
     master := (no_limits, None) |}.

(** No stream open. *)
Definition world0 (gone : bool) (script : list (Z * bool * option error))
  (expired : bool) : World Env :=
  {| client := client0 gone; heap := fun _ => fresh 0;
     StreamConnPool := Some tt; env := env0 script expired |}.

Definition key0 : ExtentKey :=
  {| PartitionId := 1; ExtentId := 1; ExtentOffset := 0;
     ek_FileOffset := 0; ek_Size := 1024 |}.

(** A fetched cache of one key covering the first 1024 bytes. *)
Definition fetched (s : Streamer) : Streamer :=
  {| inode := inode s; once := true;
     extents := {| initialized := true; size := 1024; gen := 1;
                   keys := [key0] |};
     overWriteReq := overWriteReq s; request := request s;
     refcnt := refcnt s |}.

(** Inode 42 opened, its extents fetched. *)
Definition world42 (gone : bool) (script : list (Z * bool * option error))
  (expired : bool) : World Env :=
  let w := final (OpenStream 42 false false) (world0 gone script expired) in
  update_streamer 1 fetched w.

Definition not_found : option error :=
  Some ("read failed: extent does not exist"%string).

(** A first read that does not find its extent, a second that succeeds. *)
Definition retry_script : list (Z * bool * option error) :=
  [(0, false, not_found); (10, false, None)].

(** Inode 42 open, the cache fresh or older than a second. *)
Definition world_fresh : World Env := world42 false retry_script false.
Definition world_stale : World Env := world42 false retry_script true.

Definition limits (r w : gmap string N) : LimitInfo :=
  {| ClientReadVolRateLimitMap := r; ClientWriteVolRateLimitMap := w;
     ExtentMergeIno := ∅; li_ExtentMergeSleepMs := 0 |}.

(** The master limits reads of volume "vol" to 500 bytes/s. *)
Definition read500 : LimitInfo :=
  limits (<["vol"%string := 500%N]> ∅) ∅.

(** A world around client [c] whose master answers [li]. *)
Definition world_master (c : ExtentClient) (li : LimitInfo * option error)
  : World Env :=
  {| client := c; heap := fun _ => fresh 0; StreamConnPool := Some tt;
     env := {| next_ptr := 1; read_script := []; cache_expired := false;
               master := li |} |}.

(** The client given a write rate of 7 at run time, the master limiting
    reads to 500. *)
Definition world_rates : World Env :=
  world_master (SetWriteRate 7 (client0 false)).1 (read500, None).

End Sim.

(** ** Construction: mounting the data-partition wrapper

    The head of [NewExtentClient], up to the point where the wrapper exists
    or the constructor gives up.  [NewDataPartitionWrapper] and
    [RebuildDataPartitionWrapper] live in another file of the package and
    [time.Sleep] in the runtime: they act on the environment. *)

Definition MountRetryInterval : Z := 5.

Inductive MountEvent : Type :=
| EvRebuildDataPartitionWrapper (volume : string) (masters : list string)
| EvNewDataPartitionWrapper (volume : string) (masters : list string)
    (err : option error)
| EvSleep (seconds : Z).

Class MountExternals (Env DataState : Type) : Type := {
  RebuildDataPartitionWrapper :
    string -> list string -> DataState -> Env -> Env * option Wrapper;
  NewDataPartitionWrapper :
    string -> list string -> Env -> Env * (option Wrapper * option error);
  time_Sleep : Z -> Env -> Env
}.

Section Mount.

Context {Env DataState : Type} {X : Externals Env}
  {Mt : MountExternals Env DataState}.

(** The block between the label [retry] and the end of the [else] branch:
    [limit] counts the retries that are left. *)
Fixpoint mount_retry (limit : nat) (volume : string) (masters : list string)
  (e : Env) : (option Wrapper * option error) * Env * list MountEvent :=
  let '(e1, (wrapper, err)) := NewDataPartitionWrapper volume masters e in
  let tried := EvNewDataPartitionWrapper volume masters err in
  match err with
  | None => ((wrapper, None), e1, [tried])
  | Some er =>
      match limit with
      | O =>
          ((None, Some (errors_Trace er "Init data wrapper failed!")), e1,
           [tried])
      | S limit' =>
          let '(r, e2, t) :=
            mount_retry limit' volume masters
              (time_Sleep MountRetryInterval e1) in
          (r, e2, tried :: EvSleep MountRetryInterval :: t)
      end
  end.

(** [client.dataWrapper] and the error of an early return, if any. *)
Definition NewExtentClient_mount (config : ExtentConfig)
  (dataState : option DataState) (e : Env)
  : (option Wrapper * option error) * Env * list MountEvent :=
  match dataState with
  | Some ds =>
      let '(e1, wrapper) :=
        RebuildDataPartitionWrapper (Volume config) (Masters config) ds e in
      ((wrapper, None), e1,
       [EvRebuildDataPartitionWrapper (Volume config) (Masters config)])
  | None =>
      mount_retry (Z.to_nat MaxMountRetryLimit) (Volume config)
        (Masters config) e
  end.

End Mount.

(** A master that answers the attempts to mount from a script: an entry is
    the error of one attempt, and an exhausted script means success. *)
Module SimMount.

Definition Env : Type := list (option error) * Z.

#[global] Instance mount : MountExternals Env unit := {|
  RebuildDataPartitionWrapper := fun volume masters ds e =>
    (e, Some (Sim.wrapper0 false));
  NewDataPartitionWrapper := fun volume masters e =>
    match e.1 with
    | [] => (e, (Some (Sim.wrapper0 false), None))
    | None :: rest => ((rest, e.2), (Some (Sim.wrapper0 false), None))
    | Some er :: rest => ((rest, e.2), (None, Some er))
    end;
  time_Sleep := fun seconds e => (e.1, e.2 + seconds)
|}.

Definition externals : Externals Env := {|
  ErrVolNotExists := "vol not exists";
  ErrGetExtentsFailed := "get extents failed";
  ExtentNotFoundError := "extent does not exist";
  errors_Trace := fun e prefix => prefix +:+ ": " +:+ e;
  DefaultTinySizeLimit := 1024 * 1024;
  NewStreamer := fun ino _ _ w => (w, 0%N);
  IssueOpenRequest := fun s w => (w, None);
  IssueReleaseRequest := fun s w => (w, None);
  IssueMustReleaseRequest := fun s w => (w, None);
  IssueEvictRequest := fun s w => (w, None);
  GetExtents := fun s w => (w, None);
  PrepareRequests := fun s offset sz data w => (w, []);
  appendOverWriteReq := fun s req direct w => (w, 0);
  IssueWriteRequest := fun s offset data direct owb w => (w, (0, false, None));
  writeToNewExtent := fun s req direct w => (w, (None, 0, 0, None));
  writeToSpecificExtent := fun s req extID extentOffset dp direct w =>
    (w, (0, None));
  IssueTruncRequest := fun s sz w => (w, None);
  IssueFlushRequest := fun s w => (w, None);
  UpdateExpiredExtentCache := fun s w => (w, tt);
  read := fun s data offset sz w => (w, (data, 0, false, None));
  IsExpired := fun s sec w => false;
  IssueExtentMergeRequest := fun s w => (w, (true, None));
  Wrapper_InitFollowerRead := Sim.InitFollowerRead;
  Wrapper_SetNearRead := Sim.SetNearRead;
  Wrapper_Stop := fun w => (w, tt);
  ConnPool_Close := fun w => (w, tt);
  GetLimitInfo := fun vol w => (w, (Sim.no_limits, None))
|}.

(** The master down for the first two attempts, and for good. *)
Definition down_twice : Env := ([Some "timeout"%string; Some "timeout"%string], 0).
Definition down : Env := (replicate 10 (Some "timeout"%string), 0).

End SimMount.

(** A client with background merging switched on. *)
Definition set_extentMerge_on (c : ExtentClient) : ExtentClient :=
  {| streamerConcurrentMap := streamerConcurrentMap c;
     originReadRate := originReadRate c;
     originWriteRate := originWriteRate c; readRate := readRate c;
     writeRate := writeRate c; readLimiter := readLimiter c;
     writeLimiter := writeLimiter c; dataWrapper := dataWrapper c;
     followerRead := followerRead c; alignSize := alignSize c;
     maxExtentNumPerAlignArea := maxExtentNumPerAlignArea c;
     forceAlignMerge := forceAlignMerge c; tinySize := tinySize c;
     extentSize := extentSize c; autoFlush := autoFlush c; stopC := stopC c;
     extentMerge := true; extentMergeIno := extentMergeIno c;
     ExtentMergeSleepMs := ExtentMergeSleepMs c |}.

(** Further worlds of the stand-in. *)
Module SimMore.

(** Inode 42 open, the latch of its streamer fired and its extents not
    initialized: the first fetch failed. *)
Definition world_latched : World Sim.Env :=
  update_streamer 1 (set_once true)
    (final (OpenStream 42 false false) (Sim.world0 false [] false)).

(** Inode 42 open, its extents fetched, reads succeeding. *)
Definition world_open : World Sim.Env := Sim.world42 false [] false.

(** The same with the connection pool closed already. *)
Definition world_no_pool : World Sim.Env := set_StreamConnPool None world_open.

(** The master asks for inodes 7 and 9 to be merged. *)
Definition merge_7_9 : LimitInfo :=
  {| ClientReadVolRateLimitMap := ∅; ClientWriteVolRateLimitMap := ∅;
     ExtentMergeIno := <["vol"%string := [7%N; 9%N]]> ∅;
     li_ExtentMergeSleepMs := 100 |}.

(** A client that merges extents in the background, its master asking for
    inodes 7 and 9. *)
Definition world_merging : World Sim.Env :=
  Sim.world_master (set_extentMerge_on (Sim.client0 false)) (merge_7_9, None).

End SimMore.

(** ** Walking the volume for the inodes to merge

    [lookupAllInode] lists a directory through the meta wrapper and descends
    into its subdirectories.  [MetaWrapper.ReadDir_ll] lives in package
    [meta], [proto.IsRegular] and [proto.IsDir] in package [proto]; the state
    of the meta wrapper is [Meta]. *)

Record Dentry : Type := mkDentry {
  Name : string;
  Inode : N;
  Type_ : N
}.

Inductive ReadDirEvent : Type :=
| EvReadDir_ll (parent : N) (res : list Dentry * option error).

Class MetaExternals (Meta : Type) : Type := {
  ReadDir_ll : N -> Meta -> Meta * (list Dentry * option error);
  IsRegular : N -> bool;
  IsDir : N -> bool
}.

Section Walk.

Context {Meta : Type} {Mw : MetaExternals Meta}.

(** The loop over the entries of one directory: [inodes] is the slice
    built so far, [rec] the call of [lookupAllInode] on a subdirectory. *)
Fixpoint lookupAllInode_range
  (rec : N -> Meta -> option (list N * Meta * list ReadDirEvent))
  (dentries : list Dentry) (inodes : list N) (m : Meta)
  (t : list ReadDirEvent)
  : option (list N * Meta * list ReadDirEvent) :=
  match dentries with
  | [] => Some (inodes, m, t)
  | dentry :: rest =>
      if IsRegular (Type_ dentry) then
        lookupAllInode_range rec rest (inodes ++ [Inode dentry]) m t
      else if IsDir (Type_ dentry) then
        match rec (Inode dentry) m with
        | None => None
        | Some (newInodes, m', t') =>
            lookupAllInode_range rec rest (inodes ++ newInodes) m' (t ++ t')
        end
      else lookupAllInode_range rec rest inodes m t
  end.

(** [depth] bounds the depth of the recursion; [None] when it does not
    suffice. *)
Fixpoint lookupAllInode (depth : nat) (parent : N) (m : Meta)
  : option (list N * Meta * list ReadDirEvent) :=
  match depth with
  | O => None
  | S depth' =>
      let '(m1, (dentries, err)) := ReadDir_ll parent m in
      let read := EvReadDir_ll parent (dentries, err) in
      match err with
      | Some _ => Some ([], m1, [read])
      | None =>
          lookupAllInode_range (lookupAllInode depth') dentries [] m1 [read]
      end
  end.

(** The inodes of the regular files among [dentries], the inodes of its
    directories, in the order of the listing. *)
Definition regular_of (dentries : list Dentry) : list N :=
  Inode <$> List.filter (fun d => IsRegular (Type_ d)) dentries.

Definition directories_of (dentries : list Dentry) : list N :=
  Inode <$>
    List.filter (fun d => negb (IsRegular (Type_ d)) && IsDir (Type_ d))
      dentries.

(** What the listings of a trace hold; a listing that failed holds
    nothing. *)
Definition listed (pick : list Dentry -> list N) (t : list ReadDirEvent)
  : list N :=
  t ≫= fun ev =>
    match ev with
    | EvReadDir_ll _ (dentries, None) => pick dentries
    | EvReadDir_ll _ (_, Some _) => []
    end.

Definition directory_read (ev : ReadDirEvent) : N :=
  match ev with EvReadDir_ll parent _ => parent end.

End Walk.

Module SimWalk.

(** A volume: the root 1 holds the file 10, the directory 2 and the
    symbolic link 11; directory 2 holds the file 20 and the directory 3,
    whose listing fails. *)
Definition Meta : Type := unit.

Definition regular : N := 0.
Definition directory : N := 1.
Definition symlink : N := 2.

#[global] Instance meta : MetaExternals Meta := {|
  ReadDir_ll := fun parent m =>
    if (parent =? 1)%N then
      (m, ([mkDentry "a" 10 regular; mkDentry "d" 2 directory;
            mkDentry "l" 11 symlink], None))
    else if (parent =? 2)%N then
      (m, ([mkDentry "b" 20 regular; mkDentry "e" 3 directory], None))
    else (m, ([], Some "readdir failed"%string));
  IsRegular := fun t => (t =? regular)%N;
  IsDir := fun t => (t =? directory)%N
|}.

(** The listings of the walk from the root, in the order it makes them. *)
Definition reads : list ReadDirEvent :=
  [EvReadDir_ll 1
     ([mkDentry "a" 10 regular; mkDentry "d" 2 directory;
       mkDentry "l" 11 symlink], None);
   EvReadDir_ll 2
     ([mkDentry "b" 20 regular; mkDentry "e" 3 directory], None);
   EvReadDir_ll 3 ([], Some "readdir failed"%string)].

Definition rank (inode : N) : nat :=
  if (inode =? 1)%N then 2%nat else if (inode =? 2)%N then 1%nat else 0%nat.

End SimWalk.

(** ** Vocabulary of the statements *)

Definition MiB : Z := 1024 * 1024.

(** The rate [updateConfig] settles on for one direction, from the master's
    map, the volume name and the client's own rate: the master's entry for
    the volume, or for the empty name when the volume has none, if there is
    one and it is not zero; else the client's own rate if positive; else
    unlimited. *)
Definition effective_rate (master : gmap string N) (vol : string) (own : Z)
  : Rate.Limit :=
  let fallback := if own >? 0 then Rate.of_int own else Rate.Inf in
  let entry := match master !! vol with
               | Some r => Some r
               | None => master !! ""
               end in
  match entry with
  | Some r => if (r =? 0)%N then fallback else Rate.of_int (Z.of_N r)
  | None => fallback
  end.

(** The rate of the read direction as the specification words it: as
    [effective_rate], with the rate the constructor was given as the
    client's own. *)
Definition specified_read_rate (master : gmap string N) (config : ExtentConfig)
  : Rate.Limit :=
  effective_rate master (Volume config) (ReadRate config).

(** Sum of a list of integers. *)
Definition Zsum (l : list Z) : Z := foldr Z.add 0 l.

(** The calls that buffer [requests] one after the other on streamer [s],
    [sizes] being what each call returned. *)
Definition buffered (inode : N) (s : ptr) (direct : bool)
  (requests : list ExtentRequest) (sizes : list Z) : list Event :=
  zip_with (fun req n => EvStreamer inode s (CallAppendOverWriteReq req direct n))
    requests sizes.

Section Buffering.

Context {Env : Type} {X : Externals Env}.

(** [appendOverWriteReq] called on streamer [s] for each of [requests], one
    after the other from the world [w]: the world the last call leaves and
    what each call returned. *)
Fixpoint appendOverWriteReqs (s : ptr) (direct : bool)
  (requests : list ExtentRequest) (w : World Env) : World Env * list Z :=
  match requests with
  | [] => (w, [])
  | req :: rest =>
      let '(w1, n) := appendOverWriteReq s req direct w in
      let '(w2, sizes) := appendOverWriteReqs s direct rest w1 in
      (w2, n :: sizes)
  end.

(** Modelled from the spec: what [appendOverWriteReq], which is in another
    file, does.  It puts the request at the end of the overwrite buffer of
    the streamer and returns the size of the request. *)
Definition appends_to_buffer (s : ptr) (direct : bool) : Prop :=
  forall (req : ExtentRequest) (w : World Env),
    overWriteReq (heap (appendOverWriteReq s req direct w).1 s)
      = overWriteReq (heap w s) ++ [(req, direct)] /\
    (appendOverWriteReq s req direct w).2 = Size req.

End Buffering.

(** What [Close] lets reach the streamer of one inode: at most a flush
    request, then at most a must-release request, then at most an evict
    request, which when it succeeds is followed by the send on [done] and
    the wait for the worker. *)
Definition flush_part (inode : N) (t : list Event) : Prop :=
  t = [] \/ exists s err, t = [EvStreamer inode s (CallIssueFlushRequest err)].

Definition must_release_part (inode : N) (t : list Event) : Prop :=
  t = [] \/
  exists s err, t = [EvStreamer inode s (CallIssueMustReleaseRequest err)].

Definition evict_part (inode : N) (t : list Event) : Prop :=
  t = [] \/
  (exists s e, t = [EvStreamer inode s (CallIssueEvictRequest (Some e))]) \/
  (exists s, t = [EvStreamer inode s (CallIssueEvictRequest None);
                  EvStreamer inode s CallDoneSend;
                  EvStreamer inode s CallWgWait]).

Definition release_block (inode : N) (t : list Event) : Prop :=
  exists tf tm te,
    t = tf ++ tm ++ te /\
    flush_part inode tf /\ must_release_part inode tm /\ evict_part inode te.

(** [Flush], [MustCloseStream] and [EvictStream] run in this order on each
    of [inodes] in turn, from world [w] to world [w']: [blocks] holds, per
    inode, the calls they let through. *)
Section ReleaseOrder.

Context {Env : Type} {X : Externals Env}.

Inductive releases : list N -> World Env -> list (list Event) -> World Env -> Prop :=
| releases_nil (w : World Env) : releases [] w [] w
| releases_cons (inode : N) (rest : list N) (w w' : World Env)
    (blocks : list (list Event)) :
    let flushed := final (Flush inode) w in
    let closed := final (MustCloseStream inode) flushed in
    let evicted := final (EvictStream inode) closed in
    releases rest evicted blocks w' ->
    releases (inode :: rest) w
      ((trace (Flush inode) w ++ trace (MustCloseStream inode) flushed ++
        trace (EvictStream inode) closed) :: blocks) w'.

End ReleaseOrder.

Definition is_streamer_event (e : Event) : Prop :=
  match e with
  | EvStreamer _ _ _ => True
  | _ => False
  end.

(** What a refresh leaves alone in the world [w1] it finds. *)
Definition refresh_frame {Env : Type} (w1 w' : World Env) : Prop :=
  originReadRate (client w') = originReadRate (client w1) /\
  originWriteRate (client w') = originWriteRate (client w1) /\
  streamerConcurrentMap (client w') = streamerConcurrentMap (client w1) /\
  dataWrapper (client w') = dataWrapper (client w1) /\
  extentSize (client w') = extentSize (client w1) /\
  tinySize (client w') = tinySize (client w1) /\
  alignSize (client w') = alignSize (client w1) /\
  autoFlush (client w') = autoFlush (client w1) /\
  stopC (client w') = stopC (client w1) /\
  extentMerge (client w') = extentMerge (client w1) /\
  Rate.burst (readLimiter (client w')) = Rate.burst (readLimiter (client w1)) /\
  Rate.burst (writeLimiter (client w')) = Rate.burst (writeLimiter (client w1)) /\
  heap w' = heap w1 /\
  StreamConnPool w' = StreamConnPool w1 /\
  env w' = env w1 /\
  followerRead (client w') = followerRead (client w1) /\
  forceAlignMerge (client w') = forceAlignMerge (client w1) /\
  maxExtentNumPerAlignArea (client w')
    = maxExtentNumPerAlignArea (client w1).

(** How many calls of the streamer methods that [p] picks a trace holds. *)
Definition streamer_calls (p : StreamerCall -> bool) (t : list Event) : nat :=
  length
    (List.filter
       (fun e => match e with EvStreamer _ _ c => p c | _ => false end) t).

Definition is_CallRead (c : StreamerCall) : bool :=
  match c with CallRead _ _ _ _ => true | _ => false end.
Definition is_CallIssueFlushRequest (c : StreamerCall) : bool :=
  match c with CallIssueFlushRequest _ => true | _ => false end.
Definition is_CallGetExtents (c : StreamerCall) : bool :=
  match c with CallGetExtents _ => true | _ => false end.
Definition is_CallIssueWriteRequest (c : StreamerCall) : bool :=
  match c with CallIssueWriteRequest _ _ _ _ _ => true | _ => false end.
Definition is_CallAppendOverWriteReq (c : StreamerCall) : bool :=
  match c with CallAppendOverWriteReq _ _ _ => true | _ => false end.
Definition is_CallPrepareRequests (c : StreamerCall) : bool :=
  match c with CallPrepareRequests _ _ _ _ => true | _ => false end.

(** The calls [Read] may make: the fetch of the extents, the refresh of the
    expired cache, a read and a flush. *)
Definition is_read_path (c : StreamerCall) : bool :=
  match c with
  | CallGetExtents _ | CallUpdateExpiredExtentCache | CallRead _ _ _ _
  | CallIssueFlushRequest _ => true
  | _ => false
  end.

(** What the operations say of an inode that has no streamer. *)
Definition says_not_opened (err : option error) : Prop :=
  exists e, err = Some e /\ strings_Contains e "stream is not opened yet" = true.

(** How [GetRate] words a rate given as an integer. *)
Definition show_rate (r : Z) : string :=
  if r >? 0 then fmt_v r else "unlimited".

(** The trace of mounting after the attempts [failures] failed, each
    followed by a sleep, and a last attempt ended with [last]. *)
Definition mount_trace (volume : string) (masters : list string)
  (failures : list error) (last : option error) : list MountEvent :=
  flat_map
    (fun er => [EvNewDataPartitionWrapper volume masters (Some er);
                EvSleep MountRetryInterval]) failures
  ++ [EvNewDataPartitionWrapper volume masters last].

(** One step of a facade operation: a read of the world whose value [H]
    gives, a run of an operation whose outcome [H] gives, a call of a
    streamer method whose answer [H] gives. *)
Ltac step_gets H :=
  unfold bind at 1, gets at 1; rewrite H; cbv beta iota zeta; cbn [negb].
Ltac step_run H :=
  unfold bind at 1; rewrite H; cbv beta iota zeta.
Ltac step_call H :=
  unfold bind at 1, streamer_call at 1, call at 1; rewrite H;
  cbv beta iota zeta.

(** Case analysis on every scrutinee of a run, innermost first. *)
Ltac split_run :=
  repeat (cbv beta iota zeta;
    match goal with
    | |- context [match ?x with _ => _ end] =>
        lazymatch x with
        | context [match _ with _ => _ end] => fail
        | _ => destruct x eqn:?
        end
    end).

(** Case analysis on an [if] whose condition contains no other [if]. *)
Ltac innermost_if :=
  match goal with
  | |- context [if ?b then _ else _] =>
      lazymatch b with
      | context [if _ then _ else _] => fail
      | _ => destruct b
      end
  end.


(** * Properties *)

(** ** Machine arithmetic *)

Lemma wrap_small (z : Z) : GoInt.in_range z -> GoInt.wrap z = z.
Proof.
  unfold GoInt.in_range, GoInt.wrap, GoInt.min_int, GoInt.max_int.
  intros Hz. rewrite Z.mod_small; lia.
Qed.

Lemma wrap_in_range (z : Z) : GoInt.in_range (GoInt.wrap z).
Proof.
  unfold GoInt.in_range, GoInt.wrap, GoInt.min_int, GoInt.max_int.
  pose proof (Z.mod_pos_bound (z + 2 ^ 63) (2 ^ 64) ltac:(lia)). lia.
Qed.

(** Wrapping commutes with addition: a sum that wrapped on the way is the
    wrapped sum. *)
Lemma add_wrap_l (a b : Z) : GoInt.add (GoInt.wrap a) b = GoInt.wrap (a + b).
Proof.
  unfold GoInt.add, GoInt.wrap.
  replace ((a + 2 ^ 63) mod 2 ^ 64 - 2 ^ 63 + b + 2 ^ 63)
    with ((a + 2 ^ 63) mod 2 ^ 64 + b) by lia.
  rewrite Zplus_mod_idemp_l. f_equal. f_equal. lia.
Qed.

(** ** Powers of two and the test [size & (size - 1)] *)

Lemma land_pred_pow2 (k : Z) : 0 <= k -> Z.land (2 ^ k) (2 ^ k - 1) = 0.
Proof.
  intros Hk. rewrite Z.sub_1_r, <- Z.ones_equiv.
  rewrite Z.land_ones by lia. apply Z_mod_same_full.
Qed.

Lemma land_pred_between (k size : Z) :
  0 <= k -> 2 ^ k < size < 2 ^ (k + 1) -> Z.land size (size - 1) <> 0.
Proof.
  intros Hk [Hlo Hhi] Hz.
  assert (Hl1 : Z.log2 size = k) by (apply Z.log2_unique; lia).
  assert (Hl2 : Z.log2 (size - 1) = k) by (apply Z.log2_unique; lia).
  assert (Hb1 : Z.testbit size k = true)
    by (rewrite <- Hl1; apply Z.bit_log2; lia).
  assert (Hb2 : Z.testbit (size - 1) k = true).
  { rewrite <- Hl2. apply Z.bit_log2.
    pose proof (Z.pow_pos_nonneg 2 k ltac:(lia) Hk). lia. }
  assert (Hb : Z.testbit (Z.land size (size - 1)) k = true)
    by (rewrite Z.land_spec, Hb1, Hb2; reflexivity).
  rewrite Hz, Z.bits_0 in Hb. discriminate.
Qed.

(** The doubling loop, started below [size] at a positive [i], leaves with
    the first [i * 2^m] above [size], provided the fuel lasts and nothing
    wraps on the way. *)
Lemma SetExtentSize_loop_spec (n : nat) :
  forall (fuel : nat) (i size : Z),
    (n < fuel)%nat -> 0 < i ->
    i * 2 ^ Z.of_nat n <= 2 ^ 62 ->
    size < i * 2 ^ Z.of_nat n ->
    exists m : nat,
      (m <= n)%nat /\
      SetExtentSize_loop fuel i size = Some (i * 2 ^ Z.of_nat m) /\
      size < i * 2 ^ Z.of_nat m /\
      ((0 < m)%nat -> i * 2 ^ (Z.of_nat m - 1) <= size).
Proof.
  induction n as [|n IH]; intros fuel i size Hfuel Hi Hbound Hsize.
  - destruct fuel as [|fuel]; [lia|]. exists 0%nat. simpl in *.
    rewrite Z.mul_1_r in *.
    destruct (Z.gtb_spec i size); [|lia].
    repeat split; [lia | lia | intros; lia].
  - destruct fuel as [|fuel]; [lia|]. simpl SetExtentSize_loop.
    destruct (Z.gtb_spec i size) as [Hgt|Hle].
    + exists 0%nat. simpl. rewrite Z.mul_1_r.
      repeat split; [lia | lia | intros; lia].
    + rewrite Nat2Z.inj_succ, Z.pow_succ_r in Hbound, Hsize by lia.
      assert (Hpow : 1 <= 2 ^ Z.of_nat n)
        by (pose proof (Z.pow_pos_nonneg 2 (Z.of_nat n) ltac:(lia) ltac:(lia)); lia).
      assert (Hmul : GoInt.mul i 2 = i * 2).
      { apply wrap_small. unfold GoInt.in_range, GoInt.min_int, GoInt.max_int.
        nia. }
      rewrite Hmul.
      destruct (IH fuel (i * 2) size) as (m & Hm & Hloop & Hlt & Hge);
        [lia | lia | nia | nia |].
      exists (S m). rewrite Nat2Z.inj_succ, Z.pow_succ_r by lia.
      replace (i * (2 * 2 ^ Z.of_nat m)) with (i * 2 * 2 ^ Z.of_nat m) by ring.
      repeat split; [lia | exact Hloop | exact Hlt |].
      intros _. replace (Z.succ (Z.of_nat m) - 1) with (Z.of_nat m) by lia.
      destruct m as [|m].
      * simpl. lia.
      * specialize (Hge ltac:(lia)).
        replace (Z.of_nat (S m)) with (Z.of_nat (S m) - 1 + 1) at 1 by lia.
        rewrite Z.pow_add_r by lia.
        replace (i * (2 ^ (Z.of_nat (S m) - 1) * 2 ^ 1))
          with (i * 2 * 2 ^ (Z.of_nat (S m) - 1)) by ring.
        exact Hge.
Qed.

(** ** Extent size coercion *)

Lemma ExtentSize_pow2 : unit_.ExtentSize = 2 ^ 27.
Proof. reflexivity. Qed.

Lemma MinExtentSize_pow2 : unit_.MinExtentSize = 2 ^ 20.
Proof. reflexivity. Qed.

(** In range and not a power of two: the loop is entered and leaves with the
    next power of two. *)
Lemma SetExtentSize_round_up (size : Z) :
  2 ^ 20 <= size <= 2 ^ 27 ->
  (forall k, size <> 2 ^ k) ->
  exists k, SetExtentSize_loop 64 unit_.MinExtentSize size = Some (2 ^ k) /\
            2 ^ (k - 1) < size < 2 ^ k.
Proof.
  intros Hrange Hnp.
  destruct (SetExtentSize_loop_spec 8 64 (2 ^ 20) size) as (m & Hm & Hloop & Hlt & Hge);
    [lia | lia | simpl; lia | simpl; lia |].
  destruct m as [|m].
  { simpl in Hlt. lia. }
  specialize (Hge ltac:(lia)).
  exists (20 + Z.of_nat (S m)).
  rewrite MinExtentSize_pow2, Hloop, Z.pow_add_r by lia.
  split; [reflexivity|].
  replace (20 + Z.of_nat (S m) - 1) with (20 + (Z.of_nat (S m) - 1)) by lia.
  rewrite (Z.pow_add_r 2 20 (Z.of_nat (S m) - 1)) by lia.
  split; [|exact Hlt].
  assert (Hne : size <> 2 ^ (20 + (Z.of_nat (S m) - 1))) by apply Hnp.
  rewrite Z.pow_add_r in Hne by lia. lia.
Qed.

(** The test [size & (size - 1) != 0] on a positive [size] tells whether
    [size] is a power of two. *)
Lemma pow2_test (size : Z) :
  0 < size ->
  (Z.land size (size - 1) =? 0) = true <-> exists k, size = 2 ^ k.
Proof.
  intros Hpos. rewrite Z.eqb_eq. split.
  - intros Hland.
    destruct (Z.log2_spec size Hpos) as [Hlo Hhi].
    exists (Z.log2 size).
    destruct (Z.eq_dec size (2 ^ Z.log2 size)) as [|Hne]; [assumption|].
    exfalso. apply (land_pred_between (Z.log2 size) size); [| | exact Hland].
    + apply Z.log2_nonneg.
    + rewrite <- Z.add_1_r in Hhi. lia.
  - intros [k ->].
    assert (0 <= k).
    { destruct (Z.le_gt_cases 0 k); [assumption|].
      rewrite Z.pow_neg_r in Hpos by lia. lia. }
    now apply land_pred_pow2.
Qed.

(** C5.  [SetExtentSize] always returns, and the extent size it leaves in
    the client is: 128 MiB for 0; 128 MiB for anything above 128 MiB; 1 MiB
    for anything else below 1 MiB; for a remaining value that is not a power
    of two, the next power of two above it (4 MiB for 3 MiB); and the value
    itself for a power of two in range.  No other field changes. *)
Theorem SetExtentSize_coerces (size : Z) (c : ExtentClient) :
  exists e : Z,
    SetExtentSize size c = Some (set_extentSize e c) /\
    (size = 0 -> e = 128 * MiB) /\
    (size > 128 * MiB -> e = 128 * MiB) /\
    (size < 1 * MiB -> size <> 0 -> e = 1 * MiB) /\
    (1 * MiB <= size <= 128 * MiB -> (forall k, size <> 2 ^ k) ->
     exists k, e = 2 ^ k /\ 2 ^ (k - 1) < size < 2 ^ k) /\
    (1 * MiB <= size <= 128 * MiB -> (exists k, size = 2 ^ k) -> e = size) /\
    (size = 3 * MiB -> e = 4 * MiB).
Proof.
  unfold SetExtentSize.
  change (128 * MiB) with (2 ^ 27). change (1 * MiB) with (2 ^ 20).
  change (3 * MiB) with 3145728. change (4 * MiB) with (2 ^ 22).
  rewrite ExtentSize_pow2, MinExtentSize_pow2.
  destruct (Z.eqb_spec size 0) as [H0|H0].
  { exists (2 ^ 27). repeat split; intros; try reflexivity; try lia. }
  destruct (Z.gtb_spec size (2 ^ 27)) as [Hbig|Hbig].
  { exists (2 ^ 27). repeat split; intros; try reflexivity; try lia. }
  destruct (Z.ltb_spec size (2 ^ 20)) as [Hsmall|Hsmall].
  { exists (2 ^ 20). repeat split; intros; try reflexivity; try lia. }
  assert (Hsub : GoInt.sub size 1 = size - 1).
  { apply wrap_small. unfold GoInt.in_range, GoInt.min_int, GoInt.max_int. lia. }
  rewrite Hsub.
  destruct (Z.land size (size - 1) =? 0) eqn:Htest; simpl negb; cbv iota.
  - apply pow2_test in Htest; [|lia].
    exists size. repeat split; intros; try reflexivity; try lia.
    + destruct Htest as [k Hk]. exfalso. now apply (H1 k).
    + subst size. destruct Htest as [k Hk].
      assert (Hlog : Z.log2 3145728 = Z.log2 (2 ^ k)) by now rewrite Hk.
      assert (0 <= k).
      { destruct (Z.le_gt_cases 0 k); [assumption|].
        rewrite Z.pow_neg_r in Hk by lia. lia. }
      rewrite Z.log2_pow2 in Hlog by lia.
      change (Z.log2 3145728) with 21 in Hlog. subst k. discriminate Hk.
  - assert (Hnp : forall k, size <> 2 ^ k).
    { intros k Hk.
      assert (Ht : (Z.land size (size - 1) =? 0) = true)
        by (apply pow2_test; [lia | now exists k]).
      congruence. }
    destruct (SetExtentSize_round_up size ltac:(lia) Hnp) as (k & Hloop & Hk).
    rewrite MinExtentSize_pow2 in Hloop. rewrite Hloop.
    exists (2 ^ k). repeat split; intros; try reflexivity; try lia.
    + exists k. split; [reflexivity | lia].
    + destruct H1 as [k' Hk']. exfalso. now apply (Hnp k').
    + subst size. f_equal.
      destruct (Z.le_gt_cases k 21) as [Hk21|Hk21].
      { pose proof (Z.pow_le_mono_r 2 k 21 ltac:(lia) Hk21) as Hp.
        change (2 ^ 21) with 2097152 in Hp. lia. }
      destruct (Z.le_gt_cases 23 k) as [Hk23|Hk23]; [|lia].
      pose proof (Z.pow_le_mono_r 2 22 (k - 1) ltac:(lia) ltac:(lia)) as Hp.
      change (2 ^ 22) with 4194304 in Hp. lia.
Qed.

Lemma SetExtentSize_coerces_witness :
  extentSize <$> SetExtentSize (3 * MiB) (Sim.client0 false) = Some (4 * MiB) /\
  extentSize <$> SetExtentSize (200 * MiB) (Sim.client0 false) = Some (128 * MiB) /\
  extentSize <$> SetExtentSize 0 (Sim.client0 false) = Some (128 * MiB) /\
  extentSize <$> SetExtentSize 4096 (Sim.client0 false) = Some (1 * MiB) /\
  extentSize <$> SetExtentSize (8 * MiB) (Sim.client0 false) = Some (8 * MiB).
Proof.
  refine (conj _ (conj _ (conj _ (conj _ _)))).
  - destruct (SetExtentSize_coerces (3 * MiB) (Sim.client0 false))
      as (e & -> & _ & _ & _ & _ & _ & H3).
    rewrite (H3 eq_refl). reflexivity.
  - destruct (SetExtentSize_coerces (200 * MiB) (Sim.client0 false))
      as (e & -> & _ & Hbig & _).
    rewrite Hbig; [reflexivity | reflexivity].
  - destruct (SetExtentSize_coerces 0 (Sim.client0 false))
      as (e & -> & H0 & _).
    rewrite (H0 eq_refl). reflexivity.
  - destruct (SetExtentSize_coerces 4096 (Sim.client0 false))
      as (e & -> & _ & _ & Hsmall & _).
    rewrite Hsmall; [reflexivity | reflexivity | discriminate].
  - destruct (SetExtentSize_coerces (8 * MiB) (Sim.client0 false))
      as (e & -> & _ & _ & _ & _ & Hpow & _).
    rewrite Hpow; [reflexivity | split; discriminate | now exists 23].
Defined.

(** ** Rate control *)

(** *** Integers as float64

    An integer of at most 53 bits is a float64 as it stands: converting it
    to [rate.Limit] and back gives the integer. *)

Lemma digits2_pos_bounds (p : positive) :
  2 ^ (Z.pos (digits2_pos p) - 1) <= Z.pos p < 2 ^ Z.pos (digits2_pos p).
Proof.
  induction p as [p IH|p IH|]; cbn [digits2_pos].
  - rewrite Pos2Z.inj_succ.
    replace (Z.succ (Z.pos (digits2_pos p)) - 1) with (Z.pos (digits2_pos p) - 1 + 1) by lia.
    rewrite Z.pow_succ_r, Z.pow_add_r by lia. lia.
  - rewrite Pos2Z.inj_succ.
    replace (Z.succ (Z.pos (digits2_pos p)) - 1) with (Z.pos (digits2_pos p) - 1 + 1) by lia.
    rewrite Z.pow_succ_r, Z.pow_add_r by lia. lia.
  - cbn. lia.
Qed.

Lemma iter_xO_value (n p : positive) :
  Z.pos (Pos.iter xO p n) = Z.pos p * 2 ^ Z.pos n.
Proof.
  induction n as [|n IH] using Pos.peano_ind.
  - cbn. lia.
  - rewrite Pos.iter_succ, Pos2Z.inj_xO, IH, Pos2Z.inj_succ, Z.pow_succ_r by lia. ring.
Qed.

Lemma iter_xO_digits (n p : positive) :
  digits2_pos (Pos.iter xO p n) = (digits2_pos p + n)%positive.
Proof.
  induction n as [|n IH] using Pos.peano_ind.
  - cbn. lia.
  - rewrite Pos.iter_succ. cbn [digits2_pos]. rewrite IH. lia.
Qed.

Lemma binary_round_aux_exact (sx : bool) (m : positive) (e : Z) :
  Z.pos (digits2_pos m) = 53 -> -1074 <= e <= 971 ->
  binary_round_aux Rate.prec Rate.emax sx (Z.pos m) e loc_Exact = S754_finite sx m e.
Proof.
  intros Hd He.
  unfold binary_round_aux, shr_fexp.
  cbn [shr_record_of_loc Zdigits2]. rewrite Hd.
  assert (H0 : fexp Rate.prec Rate.emax (53 + e) - e = 0)
    by (unfold fexp, emin, Rate.prec, Rate.emax; lia).
  rewrite H0. cbn [shr shr_m loc_of_shr_record shr_r shr_s round_nearest_even].
  cbn [shr_record_of_loc Zdigits2]. rewrite Hd, H0.
  cbn [shr shr_m]. 
  destruct (Z.leb_spec e (Rate.emax - Rate.prec)) as [_|Hgt]; [reflexivity|].
  unfold Rate.emax, Rate.prec in Hgt. lia.
Qed.

Lemma of_int_exact (v : Z) :
  0 < v < 2 ^ 53 ->
  exists (m : positive) (e : Z),
    Rate.of_int v = S754_finite false m e /\ -52 <= e <= 0 /\
    Z.pos m = v * 2 ^ (- e).
Proof.
  intros [Hpos Hv]. destruct v as [|p|p]; try lia.
  set (d := Z.pos (digits2_pos p)).
  pose proof (digits2_pos_bounds p) as [Hlo Hhi]. fold d in Hlo, Hhi.
  assert (Hd : 1 <= d <= 53).
  { split; [unfold d; lia|].
    destruct (Z.le_gt_cases d 53) as [|Hgt]; [assumption|].
    pose proof (Z.pow_le_mono_r 2 53 (d - 1) ltac:(lia) ltac:(lia)). lia. }
  unfold Rate.of_int, binary_normalize, binary_round, shl_align.
  assert (Hf : fexp Rate.prec Rate.emax (Z.pos (digits2_pos p) + 0) = d - 53)
    by (unfold fexp, emin, Rate.prec, Rate.emax; fold d; lia).
  rewrite Hf, Z.sub_0_r.
  destruct (d - 53) as [|n|n] eqn:Hn.
  - exists p, 0. split; [|split; [lia | cbn; lia]].
    apply binary_round_aux_exact; [fold d; lia | lia].
  - lia.
  - exists (Pos.iter xO p n), (Z.neg n). split; [|split; [lia|]].
    + apply binary_round_aux_exact; [|lia].
      rewrite iter_xO_digits, Pos2Z.inj_add. fold d. lia.
    + rewrite iter_xO_value. reflexivity.
Qed.

Lemma to_int_of_int (v : Z) : 0 < v < 2 ^ 53 -> Rate.to_int (Rate.of_int v) = v.
Proof.
  intros Hv. destruct (of_int_exact v Hv) as (m & e & -> & He & Hm).
  unfold Rate.to_int, Rate.trunc.
  assert (Ha : (if 0 <=? e then Z.shiftl (Z.pos m) e else Z.shiftr (Z.pos m) (- e)) = v).
  { destruct (Z.leb_spec 0 e).
    - replace e with 0 in * by lia. rewrite Z.shiftl_0_r. cbn in Hm. lia.
    - rewrite Z.shiftr_div_pow2, Hm, Z.div_mul by lia. reflexivity. }
  rewrite Ha.
  unfold GoInt.min_int, GoInt.max_int.
  destruct (Z.leb_spec (- 2 ^ 63) v); [|lia].
  destruct (Z.leb_spec v (2 ^ 63 - 1)); [reflexivity | lia].
Qed.

(** *** Setting and reporting the rates *)

(** [int(rate.Inf)] is not positive, so an unlimited limiter is reported as
    such. *)
Lemma getRate_Inf (b : Z) : getRate (Rate.NewLimiter Rate.Inf b) = "unlimited"%string.
Proof. reflexivity. Qed.

Lemma setRate_unlimited (lim : Rate.Limiter) (v : Z) :
  v <= 0 -> setRate lim v = (Rate.SetLimit Rate.Inf lim, "unlimited"%string).
Proof. intros Hv. unfold setRate. destruct (Z.gtb_spec v 0); [lia | reflexivity]. Qed.

Lemma setRate_limited (lim : Rate.Limiter) (v : Z) :
  0 < v -> setRate lim v = (Rate.SetLimit (Rate.of_int v) lim, fmt_v v).
Proof. intros Hv. unfold setRate. destruct (Z.gtb_spec v 0); [reflexivity | lia]. Qed.

(** C6.  [SetReadRate] and [SetWriteRate] with a value that is not positive
    set their limiter to [rate.Inf] and return "unlimited"; with a positive
    value they set the limit to that value (as a float64, which holds it
    exactly below 2^53) and return its decimal string.  Hence [GetRate]
    after [SetReadRate] of 0 (or less) reports "unlimited" for reads, and
    what it reported before for writes. *)
Theorem SetRate_applies (v : Z) (c : ExtentClient) :
  (v <= 0 ->
   (SetReadRate v c).2 = "unlimited"%string /\
   Rate.limit (readLimiter (SetReadRate v c).1) = Rate.Inf /\
   (SetWriteRate v c).2 = "unlimited"%string /\
   Rate.limit (writeLimiter (SetWriteRate v c).1) = Rate.Inf /\
   GetRate (SetReadRate v c).1 =
     "read: unlimited" +:+ newline +:+
     "write: " +:+ getRate (writeLimiter c) +:+ newline) /\
  (0 < v ->
   (SetReadRate v c).2 = fmt_v v /\
   Rate.limit (readLimiter (SetReadRate v c).1) = Rate.of_int v /\
   (SetWriteRate v c).2 = fmt_v v /\
   Rate.limit (writeLimiter (SetWriteRate v c).1) = Rate.of_int v /\
   (v < 2 ^ 53 ->
    Rate.to_int (Rate.limit (readLimiter (SetReadRate v c).1)) = v /\
    Rate.to_int (Rate.limit (writeLimiter (SetWriteRate v c).1)) = v)).
Proof.
  split; intros Hv; unfold SetReadRate, SetWriteRate.
  - rewrite !setRate_unlimited by assumption. cbn.
    repeat split.
  - rewrite !setRate_limited by assumption. cbn.
    split; [reflexivity|]. split; [reflexivity|].
    split; [reflexivity|]. split; [reflexivity|].
    intros Hsmall. split; apply to_int_of_int; lia.
Qed.

Lemma SetRate_applies_witness :
  GetRate (SetReadRate 0 (Sim.client0 false)).1 =
    "read: unlimited" +:+ newline +:+ "write: unlimited" +:+ newline /\
  (SetWriteRate 1048576 (Sim.client0 false)).2 = "1048576"%string.
Proof.
  split.
  - destruct (SetRate_applies 0 (Sim.client0 false)) as [H0 _].
    destruct (H0 ltac:(lia)) as (_ & _ & _ & _ & Hget).
    rewrite Hget. reflexivity.
  - destruct (SetRate_applies 1048576 (Sim.client0 false)) as [_ Hpos].
    destruct (Hpos ltac:(lia)) as (_ & _ & Hw & _ & _).
    rewrite Hw. reflexivity.
Defined.

Lemma to_uint64_small (z : Z) : 0 <= z -> GoInt.in_range z -> Z.of_N (GoInt.to_uint64 z) = z.
Proof.
  unfold GoInt.in_range, GoInt.max_int, GoInt.to_uint64. intros H0 Hz.
  rewrite Z.mod_small by lia. lia.
Qed.

Section Refresh.

Context {Env : Type} {X : Externals Env}.

(** C4, as the code has it.  A refresh that obtains the limit info sets,
    for each direction on its own, the limit to the master's rate for the
    volume (for the empty name when the volume has no entry) if that is
    present and not zero; otherwise to the client's own rate
    ([originReadRate], [originWriteRate]: what the constructor was given,
    or what [SetReadRate] or [SetWriteRate] stored since) if positive;
    otherwise to [rate.Inf].  A refresh whose fetch fails changes
    nothing. *)
Theorem updateConfig_rates (w w1 : World Env) (li : LimitInfo)
  (err : option error) :
  GetLimitInfo (volName (dataWrapper (client w))) w = (w1, (li, err)) ->
  GoInt.in_range (originReadRate (client w1)) ->
  GoInt.in_range (originWriteRate (client w1)) ->
  (err = None ->
   Rate.limit (readLimiter (client (final updateConfig w))) =
     effective_rate (ClientReadVolRateLimitMap li)
       (volName (dataWrapper (client w))) (originReadRate (client w1)) /\
   Rate.limit (writeLimiter (client (final updateConfig w))) =
     effective_rate (ClientWriteVolRateLimitMap li)
       (volName (dataWrapper (client w))) (originWriteRate (client w1))) /\
  (err <> None -> final updateConfig w = w1).
Proof.
  intros Hfetch Hr Hw.
  unfold final, updateConfig, bind, gets, call, modify, ret. cbn.
  rewrite Hfetch. split.
  - intros ->. cbn.
    set (vol := volName (dataWrapper (client w))).
    assert (Hread :
      forall (m : gmap string N) (own : Z), GoInt.in_range own ->
        (let '(r, ok) := map_index m vol in
         let '(r, ok) := if negb ok then map_index m "" else (r, ok) in
         let r := if (negb ok || (r =? 0)%N) && (own >? 0)
                  then GoInt.to_uint64 own else r in
         if (0 <? r)%N then Rate.of_int (Z.of_N r) else Rate.Inf)
        = effective_rate m vol own).
    { intros m own Hown. unfold effective_rate, map_index.
      destruct (m !! vol) as [r|] eqn:Hvol; cbn.
      - destruct (N.eqb_spec r 0) as [->|Hne]; cbn.
        + destruct (Z.gtb_spec own 0); cbn; [|reflexivity].
          destruct (N.ltb_spec 0 (GoInt.to_uint64 own)) as [_|Hz].
          * now rewrite to_uint64_small by (assumption || lia).
          * pose proof (to_uint64_small own ltac:(lia) Hown). lia.
        + destruct (N.ltb_spec 0 r); [reflexivity | lia].
      - destruct (m !! "") as [r|] eqn:Hdef; cbn.
        + destruct (N.eqb_spec r 0) as [->|Hne]; cbn.
          * destruct (Z.gtb_spec own 0); cbn; [|reflexivity].
            destruct (N.ltb_spec 0 (GoInt.to_uint64 own)) as [_|Hz].
            -- now rewrite to_uint64_small by (assumption || lia).
            -- pose proof (to_uint64_small own ltac:(lia) Hown). lia.
          * destruct (N.ltb_spec 0 r); [reflexivity | lia].
        + destruct (Z.gtb_spec own 0); cbn; [|reflexivity].
          destruct (N.ltb_spec 0 (GoInt.to_uint64 own)) as [_|Hz].
          * now rewrite to_uint64_small by (assumption || lia).
          * pose proof (to_uint64_small own ltac:(lia) Hown). lia. }
    rewrite <- (Hread (ClientReadVolRateLimitMap li) _ Hr).
    rewrite <- (Hread (ClientWriteVolRateLimitMap li) _ Hw).
    clear Hread. subst vol.
    destruct (map_index (ClientReadVolRateLimitMap li) _) as [r ok].
    destruct (if negb ok then _ else _) as [r' ok'].
    destruct (map_index (ClientWriteVolRateLimitMap li) _) as [q okq].
    destruct (if negb okq then _ else _) as [q' okq'].
    repeat (cbn; innermost_if); cbn; split; reflexivity.
  - intros Herr. destruct err as [e|]; [reflexivity | congruence].
Qed.

End Refresh.

Lemma updateConfig_rates_witness :
  Rate.limit (readLimiter (client (final updateConfig Sim.world_rates)))
    = Rate.of_int 500 /\
  Rate.limit (writeLimiter (client (final updateConfig Sim.world_rates)))
    = Rate.of_int 7.
Proof.
  destruct (updateConfig_rates Sim.world_rates Sim.world_rates Sim.read500 None)
    as [Hok _].
  - reflexivity.
  - vm_compute. split; discriminate.
  - vm_compute. split; discriminate.
  - destruct (Hok eq_refl) as [Hread Hwrite].
    rewrite Hread, Hwrite. split; reflexivity.
Defined.

(** C4, as the claim words it, fails: a client constructed without a read
    rate and then given one by [SetReadRate] keeps that rate through a
    refresh in which the master provides none, where the rate the
    constructor was given calls for unlimited. *)
Lemma updateConfig_constructor_rate_counterexample :
  NewExtentClient (Sim.config0 0) (Sim.wrapper0 false) = Some (Sim.client0 false) /\
  Rate.limit
    (readLimiter
       (client
          (final updateConfig
             (Sim.world_master (SetReadRate 1000 (Sim.client0 false)).1
                (Sim.no_limits, None))))) = Rate.of_int 1000 /\
  specified_read_rate (ClientReadVolRateLimitMap Sim.no_limits) (Sim.config0 0)
    = Rate.Inf /\
  Rate.of_int 1000 <> Rate.Inf.
Proof.
  split; [reflexivity|]. split; [reflexivity|]. split; [reflexivity|].
  vm_compute. discriminate.
Qed.

(** ** The facade: guards *)

Section Guards.

Context {Env : Type} {X : Externals Env}.

(** C8.  [Read] of size 0 returns 0 bytes read, no hole and a nil error,
    whatever the inode, the buffer and the offset, whether or not the
    volume exists or the stream is open; the buffer, the extent cache and
    the rest of the world are as before, and no streamer is called. *)
Theorem Read_zero_size (w : World Env) (inode offset : N)
  (data : list Byte.byte) :
  Read inode data offset 0 w = ((data, 0, false, None), w, []).
Proof. reflexivity. Qed.

(** C9.  [FileSize] of an inode without a streamer returns size 0,
    generation 0 and [valid = false]; of an inode with a streamer, the
    size and the generation its cache holds and [valid = true].  Either way
    nothing changes: no streamer is created or called. *)
Theorem FileSize_spec (w : World Env) (inode : N) :
  (streamerConcurrentMap (client w) !! inode = None ->
   FileSize inode w = ((0%N, 0%N, false), w, [])) /\
  (forall s : ptr,
     streamerConcurrentMap (client w) !! inode = Some s ->
     FileSize inode w =
       ((size (extents (heap w s)), gen (extents (heap w s)), true), w, [])).
Proof.
  unfold FileSize, GetStreamer, bind, gets, ret. split.
  - intros ->. reflexivity.
  - intros s ->. reflexivity.
Qed.

(** C10.  On an inode without a streamer, [CloseStream], [MustCloseStream]
    and [EvictStream] return nil at once; the registry and the rest of the
    world are as before and no streamer is called, so that repeating them
    changes nothing either. *)
Theorem close_unopened_stream (w : World Env) (inode : N) :
  streamerConcurrentMap (client w) !! inode = None ->
  CloseStream inode w = (None, w, []) /\
  MustCloseStream inode w = (None, w, []) /\
  EvictStream inode w = (None, w, []) /\
  final (EvictStream inode) (final (EvictStream inode) w) = w.
Proof.
  intros Hnone.
  assert (He : EvictStream inode w = (None, w, []))
    by (unfold EvictStream, bind, gets, ret; now rewrite Hnone).
  unfold CloseStream, MustCloseStream, bind, gets, ret. rewrite Hnone.
  repeat split; try assumption.
  unfold final. rewrite He. cbv beta iota delta [fst snd]. now rewrite He.
Qed.

(** C1, as the code has it.  When the wrapper reports that the volume does
    not exist, [Write], [SyncWrite], [SyncWriteToSpecificExtent],
    [Truncate] and [Flush] return [ErrVolNotExists] at once: the world is
    as before and no streamer is called.  [ExtentMerge] does not ask the
    wrapper: on an inode without a streamer it reports that the stream is
    not opened, and on a streamer whose extents are fetched it issues the
    merge request and returns what the streamer answers. *)
Theorem volume_missing_guard (w : World Env) :
  Wrapper_VolNotExists (dataWrapper (client w)) = true ->
  (forall inode offset data direct overWriteBuffer,
     Write inode offset data direct overWriteBuffer w =
       ((0, false, Some ErrVolNotExists), w, [])) /\
  (forall inode offset data,
     SyncWrite inode offset data w =
       (Return (None, 0, None, Some ErrVolNotExists), w, [])) /\
  (forall dp inode fileOffset extentOffset data extID,
     SyncWriteToSpecificExtent dp inode fileOffset extentOffset data extID w =
       ((0, Some ErrVolNotExists), w, [])) /\
  (forall inode size, Truncate inode size w = (Some ErrVolNotExists, w, [])) /\
  (forall inode, Flush inode w = (Some ErrVolNotExists, w, [])) /\
  (forall inode,
     streamerConcurrentMap (client w) !! inode = None ->
     ExtentMerge inode w =
       ((true, Some "stream is not opened yet"%string), w, [])) /\
  (forall inode s,
     streamerConcurrentMap (client w) !! inode = Some s ->
     once (heap w s) = true ->
     initialized (extents (heap w s)) = true ->
     ExtentMerge inode w =
       ((IssueExtentMergeRequest s w).2, (IssueExtentMergeRequest s w).1,
        [EvStreamer inode s
           (CallIssueExtentMergeRequest (IssueExtentMergeRequest s w).2)])).
Proof.
  intros Hgone.
  unfold Write, SyncWrite, SyncWriteToSpecificExtent, Truncate, Flush,
    ExtentMerge, GetStreamer, fetch_once, once_Do, streamer_call, call,
    bind, gets, ret.
  rewrite Hgone.
  repeat split.
  - intros inode ->. reflexivity.
  - intros inode s -> Honce Hinit. rewrite Honce. cbn. rewrite Hinit. cbn.
    destruct (IssueExtentMergeRequest s w) as [w' r]. reflexivity.
Qed.

End Guards.

Lemma FileSize_spec_witness :
  FileSize 7 (Sim.world42 false [] false)
    = ((0%N, 0%N, false), Sim.world42 false [] false, []) /\
  FileSize 42 (Sim.world42 false [] false)
    = ((1024%N, 1%N, true), Sim.world42 false [] false, []).
Proof.
  split.
  - apply (FileSize_spec (Sim.world42 false [] false) 7). reflexivity.
  - apply (proj2 (FileSize_spec (Sim.world42 false [] false) 42) 1%N).
    reflexivity.
Defined.

Lemma close_unopened_stream_witness :
  CloseStream 7 (Sim.world42 false [] false)
    = (None, Sim.world42 false [] false, []) /\
  MustCloseStream 7 (Sim.world42 false [] false)
    = (None, Sim.world42 false [] false, []) /\
  EvictStream 7 (Sim.world42 false [] false)
    = (None, Sim.world42 false [] false, []).
Proof.
  destruct (close_unopened_stream (Sim.world42 false [] false) 7 eq_refl)
    as (Hc & Hm & He & _).
  exact (conj Hc (conj Hm He)).
Defined.

Lemma volume_missing_guard_witness :
  Write 42 0 [Byte.x01] false true (Sim.world42 true [] false)
    = ((0, false, Some ErrVolNotExists), Sim.world42 true [] false, []) /\
  Flush 42 (Sim.world42 true [] false)
    = (Some ErrVolNotExists, Sim.world42 true [] false, []).
Proof.
  destruct (volume_missing_guard (Sim.world42 true [] false) eq_refl)
    as (Hw & _ & _ & _ & Hf & _).
  split; [apply Hw | apply Hf].
Defined.

(** C1, as the claim words it, fails for [ExtentMerge]: with the volume
    reported missing and inode 42 open, it does not return
    [ErrVolNotExists]; it issues the merge request, which the streamer
    queues. *)
Lemma ExtentMerge_unguarded_counterexample :
  Wrapper_VolNotExists (dataWrapper (client (Sim.world42 true [] false))) = true /\
  result (ExtentMerge 42) (Sim.world42 true [] false) = (true, None) /\
  trace (ExtentMerge 42) (Sim.world42 true [] false)
    = [EvStreamer 42 1 (CallIssueExtentMergeRequest (true, None))] /\
  request (heap (Sim.world42 true [] false) 1) = [OpenRequest] /\
  request (heap (final (ExtentMerge 42) (Sim.world42 true [] false)) 1)
    = [OpenRequest; ExtentMergeRequest].
Proof. repeat split. Qed.

(** ** Traces of sequenced operations *)

Section Traces.

Context {Env : Type}.

Lemma bind_run {A B} (m : M Env A) (k : A -> M Env B) (w : World Env) :
  bind m k w =
    (result (k (result m w)) (final m w),
     final (k (result m w)) (final m w),
     trace m w ++ trace (k (result m w)) (final m w)).
Proof.
  unfold bind, result, final, trace.
  destruct (m w) as [[a w1] t1]. cbn.
  destruct (k a w1) as [[b w2] t2]. reflexivity.
Qed.

Lemma trace_bind {A B} (m : M Env A) (k : A -> M Env B) (w : World Env) :
  trace (bind m k) w = trace m w ++ trace (k (result m w)) (final m w).
Proof. unfold trace at 1. now rewrite bind_run. Qed.

Lemma final_bind {A B} (m : M Env A) (k : A -> M Env B) (w : World Env) :
  final (bind m k) w = final (k (result m w)) (final m w).
Proof. unfold final at 1. now rewrite bind_run. Qed.

Lemma run_eq {A} (m : M Env A) (w : World Env) :
  m w = (result m w, final m w, trace m w).
Proof. unfold result, final, trace. now destruct (m w) as [[a w1] t1]. Qed.

End Traces.

Lemma Zsum_app (l1 l2 : list Z) : Zsum (l1 ++ l2) = Zsum l1 + Zsum l2.
Proof. unfold Zsum. induction l1 as [|x l1 IH]; cbn; [reflexivity | lia]. Qed.

(** ** The facade: writing through the overwrite buffer *)

Section Writing.

Context {Env : Type} {X : Externals Env}.

Lemma hasAppendWrite_false (requests : list ExtentRequest) :
  hasAppendWrite requests = false <->
  Forall (fun req => req_ExtentKey req <> None) requests.
Proof.
  unfold hasAppendWrite. induction requests as [|req rest IH]; cbn.
  - split; [constructor | reflexivity].
  - rewrite orb_false_iff, IH, bool_decide_eq_false. split.
    + intros [Hreq Hrest]. now constructor.
    + intros Hall. inversion Hall; subst. now split.
Qed.

Lemma hasAppendWrite_true (requests : list ExtentRequest) :
  hasAppendWrite requests = true <->
  Exists (fun req => req_ExtentKey req = None) requests.
Proof.
  unfold hasAppendWrite. rewrite existsb_exists, Exists_exists. split.
  - intros (req & Hin & Hreq). exists req. split.
    + now apply list_elem_of_In.
    + now apply bool_decide_eq_true in Hreq.
  - intros (req & Hin & Hreq). exists req. split.
    + now apply list_elem_of_In.
    + now apply bool_decide_eq_true.
Qed.

(** The buffering loop calls [appendOverWriteReq] once per request, in
    order, each call in the world the one before left, and adds up what the
    calls return. *)
Lemma Write_overWrite_spec (inode : N) (s : ptr) (direct : bool)
  (requests : list ExtentRequest) :
  forall (acc : Z) (w : World Env),
    Write_overWrite inode s direct requests (GoInt.wrap acc) w
      = (GoInt.wrap (acc + Zsum (appendOverWriteReqs s direct requests w).2),
         (appendOverWriteReqs s direct requests w).1,
         buffered inode s direct requests
           (appendOverWriteReqs s direct requests w).2).
Proof.
  induction requests as [|req rest IH]; intros acc w.
  - cbn. unfold ret. now rewrite Z.add_0_r.
  - cbn [Write_overWrite appendOverWriteReqs].
    unfold bind, streamer_call, call.
    destruct (appendOverWriteReq s req direct w) as [w1 n] eqn:Hcall.
    rewrite add_wrap_l, (IH (acc + n) w1).
    destruct (appendOverWriteReqs s direct rest w1) as [w2 sizes].
    cbn [fst snd buffered zip_with].
    replace (acc + n + Zsum sizes) with (acc + Zsum (n :: sizes))
      by (unfold Zsum; cbn; lia).
    reflexivity.
Qed.

Lemma appendOverWriteReqs_length (s : ptr) (direct : bool)
  (requests : list ExtentRequest) :
  forall w : World Env,
    length (appendOverWriteReqs s direct requests w).2 = length requests.
Proof.
  induction requests as [|req rest IH]; intros w; [reflexivity|].
  cbn [appendOverWriteReqs].
  destruct (appendOverWriteReq s req direct w) as [w1 n].
  specialize (IH w1).
  destruct (appendOverWriteReqs s direct rest w1) as [w2 sizes].
  cbn in *. now rewrite IH.
Qed.

(** With an [appendOverWriteReq] that does what the spec says, the calls
    leave the requests at the end of the buffer, in order, and return
    their sizes. *)
Lemma appendOverWriteReqs_buffer (s : ptr) (direct : bool)
  (requests : list ExtentRequest) :
  appends_to_buffer s direct ->
  forall w : World Env,
    overWriteReq (heap (appendOverWriteReqs s direct requests w).1 s)
      = overWriteReq (heap w s) ++ ((fun req => (req, direct)) <$> requests) /\
    (appendOverWriteReqs s direct requests w).2 = Size <$> requests.
Proof.
  intros Hspec.
  induction requests as [|req rest IH]; intros w.
  - cbn. now rewrite app_nil_r.
  - cbn [appendOverWriteReqs].
    destruct (Hspec req w) as [Hbuf Hsize].
    destruct (appendOverWriteReq s req direct w) as [w1 n].
    destruct (IH w1) as [Hbufs Hsizes].
    destruct (appendOverWriteReqs s direct rest w1) as [w2 sizes].
    cbn [fst snd] in *. subst n sizes. rewrite Hbufs, Hbuf.
    split; [now rewrite <- app_assoc | reflexivity].
Qed.

(** C2.  [Write] with [overWriteBuffer] set, on an open stream whose
    extents are initialized once the one-shot fetch is through (the volume
    existing).  When [PrepareRequests] yields overwrite requests only:
    every request is handed to [appendOverWriteReq], in order, each call
    in the world the one before left, and nothing else is called, so that
    no write request is issued; the world [Write] leaves is the one the
    last of these calls leaves; and the call returns the sum of what they
    returned, [isROW = false] and a nil error.  With an
    [appendOverWriteReq] that puts the request at the end of the overwrite
    buffer and returns its size, the buffer then holds the requests after
    what it held, in order, and the sum is that of the sizes of the
    requests.  When some request is an append, a write request is issued
    and its answer returned. *)
Theorem Write_overWriteBuffer (w w1 w2 : World Env) (inode offset : N)
  (data : list Byte.byte) (direct : bool) (s : ptr) (t1 : list Event)
  (requests : list ExtentRequest) :
  Wrapper_VolNotExists (dataWrapper (client w)) = false ->
  streamerConcurrentMap (client w) !! inode = Some s ->
  fetch_once inode s w = (tt, w1, t1) ->
  initialized (extents (heap w1 s)) = true ->
  PrepareRequests s offset (GoInt.len data) data w1 = (w2, requests) ->
  let prepared :=
    EvStreamer inode s
      (CallPrepareRequests offset (GoInt.len data) data requests) in
  (Forall (fun req => req_ExtentKey req <> None) requests ->
   let appended := appendOverWriteReqs s direct requests w2 in
   let sizes := appended.2 in
   length sizes = length requests /\
   Write inode offset data direct true w
     = ((GoInt.wrap (Zsum sizes), false, None), appended.1,
        t1 ++ prepared :: buffered inode s direct requests sizes) /\
   (GoInt.in_range (Zsum sizes) ->
    result (Write inode offset data direct true) w
      = (Zsum sizes, false, None)) /\
   (appends_to_buffer s direct ->
    overWriteReq (heap (final (Write inode offset data direct true) w) s)
      = overWriteReq (heap w2 s) ++ ((fun req => (req, direct)) <$> requests) /\
    result (Write inode offset data direct true) w
      = (GoInt.wrap (Zsum (Size <$> requests)), false, None))) /\
  (Exists (fun req => req_ExtentKey req = None) requests ->
   Write inode offset data direct true w =
     ((IssueWriteRequest s offset data direct true w2).2,
      (IssueWriteRequest s offset data direct true w2).1,
      t1 ++ [prepared;
             EvStreamer inode s
               (CallIssueWriteRequest offset data direct true
                  (IssueWriteRequest s offset data direct true w2).2)])).
Proof.
  intros Hvol Hs Hfetch Hinit Hprep prepared.
  assert (Hrun :
    Write inode offset data direct true w =
      (let '(r, w3, t3) :=
         (if hasAppendWrite requests then
            streamer_call inode s
              (IssueWriteRequest s offset data direct true)
              (CallIssueWriteRequest offset data direct true)
          else
            bind (Write_overWrite inode s direct requests 0)
              (fun write => ret (write, false, None))) w2 in
       (r, w3, t1 ++ prepared :: t3))).
  { unfold Write, GetStreamer.
    step_gets Hvol. step_gets Hs. step_run Hfetch. step_gets Hinit.
    step_call Hprep.
    destruct (hasAppendWrite requests).
    - unfold streamer_call, call.
      destruct (IssueWriteRequest s offset data direct true w2) as [w3 r].
      reflexivity.
    - unfold bind, ret.
      destruct (Write_overWrite inode s direct requests 0 w2) as [[r w3] t3].
      reflexivity. }
  split.
  - intros Hall appended sizes. apply hasAppendWrite_false in Hall.
    rewrite Hall in Hrun.
    assert (Hwrite :
      Write inode offset data direct true w
        = ((GoInt.wrap (Zsum sizes), false, None), appended.1,
           t1 ++ prepared :: buffered inode s direct requests sizes)).
    { rewrite Hrun. unfold bind, ret.
      change 0 with (GoInt.wrap 0) at 1.
      rewrite (Write_overWrite_spec inode s direct requests 0 w2).
      rewrite Z.add_0_l, app_nil_r. reflexivity. }
    split; [apply appendOverWriteReqs_length|].
    split; [exact Hwrite|]. split.
    + intros Hrange. unfold result. rewrite Hwrite. cbn [fst].
      now rewrite wrap_small.
    + intros Hspec.
      destruct (appendOverWriteReqs_buffer s direct requests Hspec w2)
        as [Hbuf Hsizes].
      unfold final, result. rewrite Hwrite. cbn [fst snd].
      subst appended sizes. rewrite Hsizes. split; [exact Hbuf | reflexivity].
  - intros Hsome. apply hasAppendWrite_true in Hsome.
    rewrite Hsome in Hrun. rewrite Hrun.
    unfold streamer_call, call.
    destruct (IssueWriteRequest s offset data direct true w2) as [w3 r].
    reflexivity.
Qed.

End Writing.

Lemma Write_overWriteBuffer_witness :
  (let req := {| FileOffset := 0; Size := 2; Data := [Byte.x01; Byte.x02];
                 req_ExtentKey := Some Sim.key0 |} in
   Write 42 0 [Byte.x01; Byte.x02] false true Sim.world_fresh
     = ((2, false, None),
        update_streamer 1 (Sim.buffer req false) Sim.world_fresh,
        [EvStreamer 42 1
           (CallPrepareRequests 0 2 [Byte.x01; Byte.x02] [req]);
         EvStreamer 42 1 (CallAppendOverWriteReq req false 2)]) /\
   overWriteReq
     (heap (final (Write 42 0 [Byte.x01; Byte.x02] false true) Sim.world_fresh)
        1)
     = [(req, false)]) /\
  result (Write 42 1023 [Byte.x01; Byte.x02] false true) Sim.world_fresh
    = (2, false, None).
Proof.
  set (w := Sim.world_fresh). split.
  - destruct (Write_overWriteBuffer (X := Sim.externals) w w w 42 0
                [Byte.x01; Byte.x02] false 1 []
                (Sim.prepare (extents (heap w 1)) 0 2 [Byte.x01; Byte.x02])
                eq_refl eq_refl eq_refl eq_refl eq_refl) as [Hover _].
    destruct Hover as (_ & Hwrite & _ & Hbuffer).
    + repeat constructor. discriminate.
    + split.
      * rewrite Hwrite. reflexivity.
      * destruct Hbuffer as [Hbuf _].
        -- intros req0 w0. split; reflexivity.
        -- rewrite Hbuf. reflexivity.
  - destruct (Write_overWriteBuffer (X := Sim.externals) w w w 42 1023
                [Byte.x01; Byte.x02] false 1 []
                (Sim.prepare (extents (heap w 1)) 1023 2 [Byte.x01; Byte.x02])
                eq_refl eq_refl eq_refl eq_refl eq_refl) as [_ Happend].
    unfold result. rewrite Happend; [reflexivity|].
    constructor. reflexivity.
Defined.

(** ** The facade: reading *)

Section Reading.

Context {Env : Type} {X : Externals Env}.

(** C3, as the code has it.  The first read attempt of [Read] having
    failed with an error that contains [ExtentNotFoundError]: if the
    extent cache is not older than a second, [Read] returns that error
    with no flush, refetch or retry.  If it is older, a flush request is
    issued; a failed flush is returned; else the extents are fetched
    again; a failed fetch is returned; else the read is retried, once, and
    what the retry answers is returned.  Each case is one reply. *)
Theorem Read_retry (w w1 w2 w3 : World Env) (inode offset : N) (size : Z)
  (data data1 : list Byte.byte) (s : ptr) (t1 : list Event)
  (read1 : Z) (hasHole1 : bool) (e1 : error) :
  size <> 0 ->
  Wrapper_VolNotExists (dataWrapper (client w)) = false ->
  streamerConcurrentMap (client w) !! inode = Some s ->
  fetch_once inode s w = (tt, w1, t1) ->
  initialized (extents (heap w1 s)) = true ->
  UpdateExpiredExtentCache s w1 = (w2, tt) ->
  read s data offset size w2 = (w3, (data1, read1, hasHole1, Some e1)) ->
  strings_Contains e1 ExtentNotFoundError = true ->
  let first :=
    t1 ++ [EvStreamer inode s CallUpdateExpiredExtentCache;
           EvStreamer inode s
             (CallRead data offset size (data1, read1, hasHole1, Some e1))] in
  (IsExpired s 1 w3 = false ->
   Read inode data offset size w
     = ((data1, read1, hasHole1, Some e1), w3, first)) /\
  (IsExpired s 1 w3 = true ->
   forall (w4 : World Env) (err2 : option error),
     IssueFlushRequest s w3 = (w4, err2) ->
     let flushed := EvStreamer inode s (CallIssueFlushRequest err2) in
     (forall e2, err2 = Some e2 ->
        Read inode data offset size w
          = ((data1, read1, hasHole1, Some e2), w4, first ++ [flushed])) /\
     (err2 = None ->
      forall (w5 : World Env) (err3 : option error),
        GetExtents s w4 = (w5, err3) ->
        let fetched := EvStreamer inode s (CallGetExtents err3) in
        (forall e3, err3 = Some e3 ->
           Read inode data offset size w
             = ((data1, read1, hasHole1, Some e3), w5,
                first ++ [flushed; fetched])) /\
        (err3 = None ->
         Read inode data offset size w
           = ((read s data1 offset size w5).2, (read s data1 offset size w5).1,
              first ++
              [flushed; fetched;
               EvStreamer inode s
                 (CallRead data1 offset size
                    (read s data1 offset size w5).2)])))).
Proof.
  intros Hsize Hvol Hs Hfetch Hinit Hupd Hread Hnf first.
  assert (Hrun :
    Read inode data offset size w =
      (let '(r, w', t) :=
         (let* expired := gets (IsExpired s 1) in
          if negb expired then ret (data1, read1, hasHole1, Some e1)
          else
            let* err2 := streamer_call inode s (IssueFlushRequest s)
                           CallIssueFlushRequest in
            match err2 with
            | Some e2 => ret (data1, read1, hasHole1, Some e2)
            | None =>
                let* err3 := streamer_call inode s (GetExtents s)
                               CallGetExtents in
                match err3 with
                | Some e3 => ret (data1, read1, hasHole1, Some e3)
                | None =>
                    streamer_call inode s (read s data1 offset size)
                      (CallRead data1 offset size)
                end
            end) w3 in
       (r, w', first ++ t))).
  { unfold Read, GetStreamer.
    destruct (Z.eqb_spec size 0) as [|_]; [contradiction|].
    step_gets Hvol. step_gets Hs. step_run Hfetch. step_gets Hinit.
    step_call Hupd. step_call Hread. rewrite Hnf.
    match goal with
    | |- context [bind (gets (IsExpired s 1)) ?k w3] =>
        destruct (bind (gets (IsExpired s 1)) k w3) as [[r w'] t]
    end.
    subst first. cbn. now rewrite <- !app_assoc. }
  split.
  - intros Hexp. rewrite Hrun. step_gets Hexp. cbn. now rewrite app_nil_r.
  - intros Hexp w4 err2 Hflush flushed. split.
    + intros e2 ->. rewrite Hrun. step_gets Hexp. step_call Hflush.
      reflexivity.
    + intros -> w5 err3 Hget fetched. split.
      * intros e3 ->. rewrite Hrun. step_gets Hexp. step_call Hflush.
        step_call Hget. reflexivity.
      * intros ->. rewrite Hrun. step_gets Hexp. step_call Hflush.
        step_call Hget. unfold streamer_call, call.
        destruct (read s data1 offset size w5) as [w6 r]. reflexivity.
Qed.

End Reading.

Lemma Read_retry_witness :
  Read 42 [] 0 10 Sim.world_fresh
    = (([], 0, false, Sim.not_found),
       final (Read 42 [] 0 10) Sim.world_fresh,
       [EvStreamer 42 1 CallUpdateExpiredExtentCache;
        EvStreamer 42 1 (CallRead [] 0 10 ([], 0, false, Sim.not_found))]) /\
  result (Read 42 [] 0 10) Sim.world_stale = ([], 10, false, None).
Proof.
  split.
  - set (w := Sim.world_fresh).
    destruct (Read_retry (X := Sim.externals) w w w (read 1 [] 0 10 w).1 42 0 10
                [] [] 1 [] 0 false "read failed: extent does not exist")
      as [Hfresh _];
      [discriminate | reflexivity | reflexivity | reflexivity | reflexivity
      | reflexivity | reflexivity | reflexivity |].
    rewrite (Hfresh eq_refl). reflexivity.
  - set (w := Sim.world_stale).
    destruct (Read_retry (X := Sim.externals) w w w (read 1 [] 0 10 w).1 42 0 10
                [] [] 1 [] 0 false "read failed: extent does not exist")
      as [_ Hold];
      [discriminate | reflexivity | reflexivity | reflexivity | reflexivity
      | reflexivity | reflexivity | reflexivity |].
    destruct (Hold eq_refl _ _ eq_refl) as [_ Hflushed].
    destruct (Hflushed eq_refl _ _ eq_refl) as [_ Hretry].
    unfold result. rewrite (Hretry eq_refl). reflexivity.
Defined.

(** C3, as the claim words it, fails: the first attempt fails with an error
    that contains [ExtentNotFoundError] while the cache is not older than a
    second, and [Read] returns that error having issued no flush, fetched
    nothing and retried nothing. *)
Lemma Read_no_retry_counterexample :
  (read 1 [] 0 10 Sim.world_fresh).2 = ([], 0, false, Sim.not_found) /\
  strings_Contains "read failed: extent does not exist" ExtentNotFoundError
    = true /\
  IsExpired 1 1 (read 1 [] 0 10 Sim.world_fresh).1 = false /\
  result (Read 42 [] 0 10) Sim.world_fresh = ([], 0, false, Sim.not_found) /\
  trace (Read 42 [] 0 10) Sim.world_fresh
    = [EvStreamer 42 1 CallUpdateExpiredExtentCache;
       EvStreamer 42 1 (CallRead [] 0 10 ([], 0, false, Sim.not_found))].
Proof. repeat split. Qed.

(** ** The facade: shutdown *)

Section Closing.

Context {Env : Type} {X : Externals Env}.

Lemma Flush_trace (inode : N) (w : World Env) :
  flush_part inode (trace (Flush inode) w).
Proof.
  unfold flush_part, trace, Flush, GetStreamer, streamer_call, call, bind,
    gets, ret.
  destruct (Wrapper_VolNotExists (dataWrapper (client w))); [now left|].
  destruct (streamerConcurrentMap (client w) !! inode) as [s|]; [|now left].
  destruct (IssueFlushRequest s w) as [w1 err]. right. now exists s, err.
Qed.

Lemma MustCloseStream_trace (inode : N) (w : World Env) :
  must_release_part inode (trace (MustCloseStream inode) w).
Proof.
  unfold must_release_part, trace, MustCloseStream, streamer_call, call,
    bind, gets, ret.
  destruct (streamerConcurrentMap (client w) !! inode) as [s|]; [|now left].
  destruct (IssueMustReleaseRequest s w) as [w1 err]. right. now exists s, err.
Qed.

Lemma EvictStream_trace (inode : N) (w : World Env) :
  evict_part inode (trace (EvictStream inode) w).
Proof.
  unfold evict_part, trace, EvictStream, streamer_call, call, bind, gets,
    ret, emit.
  destruct (streamerConcurrentMap (client w) !! inode) as [s|]; [|now left].
  destruct (IssueEvictRequest s w) as [w1 [e|]]; right.
  - left. now exists s, e.
  - right. now exists s.
Qed.

(** The loop of [Close] is that sequence of releases, and its trace the
    blocks one after the other. *)
Lemma Close_release_releases (inodes : list N) :
  forall w : World Env,
  exists blocks : list (list Event),
    trace (Close_release inodes) w = concat blocks /\
    releases inodes w blocks (final (Close_release inodes) w).
Proof.
  induction inodes as [|inode rest IH]; intros w.
  - exists []. split; [reflexivity | constructor].
  - cbn [Close_release]. rewrite !final_bind, !trace_bind.
    set (wf := final (Flush inode) w).
    set (wm := final (MustCloseStream inode) wf).
    set (we := final (EvictStream inode) wm).
    destruct (IH we) as (blocks & Htr & Hrel).
    exists ((trace (Flush inode) w ++ trace (MustCloseStream inode) wf ++
             trace (EvictStream inode) wm) :: blocks).
    split.
    + cbn [concat]. rewrite Htr, <- !app_assoc. reflexivity.
    + now apply releases_cons.
Qed.

(** Each block of a sequence of releases has the shape of a release block. *)
Lemma releases_blocks (inodes : list N) (w w' : World Env)
  (blocks : list (list Event)) :
  releases inodes w blocks w' -> Forall2 release_block inodes blocks.
Proof.
  induction 1 as [|inode rest w w' blocks wf wm we _ IH]; constructor.
  - exists (trace (Flush inode) w), (trace (MustCloseStream inode) wf),
      (trace (EvictStream inode) wm).
    split; [reflexivity|].
    split; [apply Flush_trace|].
    split; [apply MustCloseStream_trace | apply EvictStream_trace].
  - exact IH.
Qed.

Lemma release_block_streamer (inode : N) (t : list Event) :
  release_block inode t -> Forall is_streamer_event t.
Proof.
  intros (tf & tm & te & -> & Hf & Hm & He).
  rewrite !Forall_app. repeat split.
  - destruct Hf as [->|(s & err & ->)]; repeat constructor.
  - destruct Hm as [->|(s & err & ->)]; repeat constructor.
  - destruct He as [->|[(s & e & ->)|(s & ->)]]; repeat constructor.
Qed.

Lemma release_blocks_streamer (inodes : list N) (blocks : list (list Event)) :
  Forall2 release_block inodes blocks -> Forall is_streamer_event (concat blocks).
Proof.
  induction 1 as [|inode t inodes blocks Hblock _ IH]; cbn.
  - constructor.
  - rewrite Forall_app. split; [|exact IH].
    now apply (release_block_streamer inode).
Qed.

(** C7, as the code has it.  [Close] on a client whose stop channel is
    open closes the channel, waits for the background tasks, stops the
    partition wrapper, and then, for the inodes of the registry in turn,
    lets through a flush request, then a must-release request, then an
    evict request (with the hand-over to the worker that follows a
    successful one), each at most once and only if the guards of [Flush],
    [MustCloseStream] and [EvictStream] pass; it returns nil.  Nothing but
    streamer calls follows the stop of the wrapper, and the connection
    pool is not closed. *)
Theorem Close_order (w : World Env) :
  stopC (client w) = false ->
  let stopped :=
    (Wrapper_Stop (set_client (set_stopC true (client w)) w)).1 in
  exists blocks : list (list Event),
    result Close w = Return None /\
    trace Close w = [EvCloseStopC; EvWgWait; EvWrapperStop] ++ concat blocks /\
    releases (Keys (streamerConcurrentMap (client stopped))) stopped blocks
      (final Close w) /\
    Forall2 release_block (Keys (streamerConcurrentMap (client stopped))) blocks /\
    Forall is_streamer_event (concat blocks) /\
    EvConnPoolClose ∉ trace Close w.
Proof.
  intros Hopen stopped.
  destruct (Close_release_releases
              (Keys (streamerConcurrentMap (client stopped))) stopped)
    as (blocks & Htr & Hrel).
  pose proof (releases_blocks _ _ _ _ Hrel) as Hall.
  pose proof (release_blocks_streamer _ _ Hall) as Hstream.
  assert (Hrun :
    Close w =
      (Return None,
       final (Close_release (Keys (streamerConcurrentMap (client stopped))))
         stopped,
       [EvCloseStopC; EvWgWait; EvWrapperStop] ++ concat blocks)).
  { rewrite <- Htr. unfold final, trace. subst stopped.
    unfold Close, bind, gets, modify, emit, call, ret. rewrite Hopen.
    destruct (Wrapper_Stop (set_client (set_stopC true (client w)) w))
      as [w1 []]. cbn [fst].
    destruct (Close_release (Keys (streamerConcurrentMap (client w1))) w1)
      as [[[] w2] t2].
    cbn. now rewrite app_nil_r. }
  assert (Hres : result Close w = Return None)
    by (unfold result; now rewrite Hrun).
  assert (Hfinal :
    final Close w =
      final (Close_release (Keys (streamerConcurrentMap (client stopped))))
        stopped)
    by (unfold final at 1; now rewrite Hrun).
  assert (Htrace :
    trace Close w = [EvCloseStopC; EvWgWait; EvWrapperStop] ++ concat blocks)
    by (unfold trace; now rewrite Hrun).
  exists blocks. rewrite Hfinal. repeat split; try assumption.
  rewrite Htrace. intros Hin.
  apply elem_of_app in Hin as [Hin|Hin].
  - repeat (apply elem_of_cons in Hin as [Hin|Hin]; [discriminate|]).
    now apply elem_of_nil in Hin.
  - rewrite Forall_forall in Hstream. exact (Hstream _ Hin).
Qed.

(** A second [Close] panics on the closed channel before anything else. *)
Lemma Close_closed (w : World Env) :
  stopC (client w) = true ->
  Close w = (Panic "close of closed channel", w, []).
Proof. intros Hclosed. unfold Close, bind, gets, ret. now rewrite Hclosed. Qed.

End Closing.

Lemma Close_order_witness :
  result Close (Sim.world42 false [] false) = Return None /\
  exists rest : list Event,
    trace Close (Sim.world42 false [] false)
      = [EvCloseStopC; EvWgWait; EvWrapperStop] ++ rest /\
    Forall is_streamer_event rest.
Proof.
  destruct (Close_order (X := Sim.externals) (Sim.world42 false [] false) eq_refl)
    as (blocks & Hres & Htr & _ & _ & Hstream & _).
  split; [exact Hres|]. exists (concat blocks). split; [exact Htr | exact Hstream].
Defined.

(** C7, as the claim words it, fails: with inode 42 open, [Close] stops the
    partition wrapper before the streamer is flushed, released and evicted,
    and leaves the connection pool open; closing the pool is left to
    [CloseConnPool]. *)
Lemma Close_order_counterexample :
  trace Close (Sim.world42 false [] false)
    = [EvCloseStopC; EvWgWait; EvWrapperStop;
       EvStreamer 42 1 (CallIssueFlushRequest None);
       EvStreamer 42 1 (CallIssueMustReleaseRequest None);
       EvStreamer 42 1 (CallIssueEvictRequest None);
       EvStreamer 42 1 CallDoneSend;
       EvStreamer 42 1 CallWgWait] /\
  StreamConnPool (final Close (Sim.world42 false [] false)) = Some tt /\
  trace CloseConnPool (final Close (Sim.world42 false [] false))
    = [EvConnPoolClose] /\
  StreamConnPool (final CloseConnPool (final Close (Sim.world42 false [] false)))
    = None.
Proof. repeat split. Qed.

(** * Further properties of the extent client *)

(** ** Extent size *)

Lemma pow2_exponent_le (a b : Z) : 0 <= b -> 2 ^ a <= 2 ^ b -> a <= b.
Proof. intros Hb Hle. apply (Z.pow_le_mono_r_iff 2); [lia | assumption | assumption]. Qed.

Lemma pow2_exponent_lt (a b : Z) : 0 <= b -> 2 ^ a < 2 ^ b -> a < b.
Proof. intros Hb Hlt. apply (Z.pow_lt_mono_r_iff 2); [lia | assumption | assumption]. Qed.

(** Whatever is asked for, [SetExtentSize] returns and leaves [2^k] with
    [k] from 20 to 27, not below the request unless the request is above
    the maximum. *)
Lemma SetExtentSize_result (size : Z) (c : ExtentClient) :
  exists k : Z,
    20 <= k <= 27 /\
    SetExtentSize size c = Some (set_extentSize (2 ^ k) c) /\
    Z.min size (2 ^ 27) <= 2 ^ k.
Proof.
  unfold SetExtentSize. rewrite ExtentSize_pow2, MinExtentSize_pow2.
  destruct (Z.eqb_spec size 0) as [->|H0].
  { exists 27. repeat split; lia. }
  destruct (Z.gtb_spec size (2 ^ 27)) as [Hbig|Hbig].
  { exists 27. repeat split; lia. }
  destruct (Z.ltb_spec size (2 ^ 20)) as [Hsmall|Hsmall].
  { exists 20. repeat split; lia. }
  assert (Hsub : GoInt.sub size 1 = size - 1).
  { apply wrap_small. unfold GoInt.in_range, GoInt.min_int, GoInt.max_int. lia. }
  rewrite Hsub.
  destruct (Z.land size (size - 1) =? 0) eqn:Htest; cbn [negb].
  - apply pow2_test in Htest as [k Hk]; [|lia].
    assert (0 <= k).
    { destruct (Z.le_gt_cases 0 k); [assumption|].
      pose proof (Z.pow_neg_r 2 k ltac:(lia)). lia. }
    exists k. subst size. split; [|split; [reflexivity | lia]].
    split; [apply pow2_exponent_le | apply pow2_exponent_le]; lia.
  - assert (Hnp : forall k, size <> 2 ^ k).
    { intros k Hk.
      assert (Ht : (Z.land size (size - 1) =? 0) = true)
        by (apply pow2_test; [lia | now exists k]).
      congruence. }
    destruct (SetExtentSize_round_up size ltac:(lia) Hnp) as (k & Hloop & Hk).
    rewrite MinExtentSize_pow2 in Hloop. rewrite Hloop.
    assert (0 <= k).
    { destruct (Z.le_gt_cases 0 k); [assumption|].
      pose proof (Z.pow_neg_r 2 k ltac:(lia)). lia. }
    exists k. split; [|split; [reflexivity | lia]]. split.
    + assert (20 < k) by (apply pow2_exponent_lt; lia). lia.
    + assert (k - 1 < 27) by (apply pow2_exponent_lt; lia). lia.
Qed.

(** A power of two from 1 MiB to 128 MiB is kept as it is. *)
Lemma SetExtentSize_keeps_pow2 (k : Z) (c : ExtentClient) :
  20 <= k <= 27 -> SetExtentSize (2 ^ k) c = Some (set_extentSize (2 ^ k) c).
Proof.
  intros Hk.
  assert (Hlo : 2 ^ 20 <= 2 ^ k) by (apply Z.pow_le_mono_r; lia).
  assert (Hhi : 2 ^ k <= 2 ^ 27) by (apply Z.pow_le_mono_r; lia).
  unfold SetExtentSize. rewrite ExtentSize_pow2, MinExtentSize_pow2.
  destruct (Z.eqb_spec (2 ^ k) 0) as [H0|_]; [lia|].
  destruct (Z.gtb_spec (2 ^ k) (2 ^ 27)) as [Hbig|_]; [lia|].
  destruct (Z.ltb_spec (2 ^ k) (2 ^ 20)) as [Hsmall|_]; [lia|].
  assert (Hsub : GoInt.sub (2 ^ k) 1 = 2 ^ k - 1).
  { apply wrap_small. unfold GoInt.in_range, GoInt.min_int, GoInt.max_int. lia. }
  rewrite Hsub, land_pred_pow2 by lia. reflexivity.
Qed.

(** X1.  Whatever size is configured, [SetExtentSize] returns, and the
    extent size it leaves is a power of two between 1 MiB and 128 MiB that
    is not below the configured size, unless that is above 128 MiB; no other
    field of the client changes. *)
Theorem SetExtentSize_power_of_two (size : Z) (c : ExtentClient) :
  exists e k : Z,
    SetExtentSize size c = Some (set_extentSize e c) /\
    e = 2 ^ k /\ 1 * MiB <= e <= 128 * MiB /\
    Z.min size (128 * MiB) <= e.
Proof.
  destruct (SetExtentSize_result size c) as (k & Hk & Hset & Hmin).
  exists (2 ^ k), k. split; [exact Hset|]. split; [reflexivity|].
  change (1 * MiB) with (2 ^ 20). change (128 * MiB) with (2 ^ 27).
  split; [|exact Hmin].
  split; apply Z.pow_le_mono_r; lia.
Qed.

(** X2.  [SetExtentSize] is idempotent: configuring the extent size a client
    was left with changes nothing. *)
Theorem SetExtentSize_idempotent (size : Z) (c c' : ExtentClient) :
  SetExtentSize size c = Some c' ->
  SetExtentSize (extentSize c') c' = Some c'.
Proof.
  intros Hset.
  destruct (SetExtentSize_result size c) as (k & Hk & Hres & _).
  rewrite Hres in Hset. injection Hset as <-.
  cbn [extentSize set_extentSize].
  now rewrite SetExtentSize_keeps_pow2.
Qed.

Lemma SetExtentSize_idempotent_witness :
  exists c' : ExtentClient,
    SetExtentSize (3 * MiB) (Sim.client0 false) = Some c' /\
    SetExtentSize (extentSize c') c' = Some c' /\ extentSize c' = 4 * MiB.
Proof.
  exists (set_extentSize (4 * MiB) (Sim.client0 false)).
  split; [reflexivity|]. split; [|reflexivity].
  apply (SetExtentSize_idempotent (3 * MiB) (Sim.client0 false)). reflexivity.
Defined.

(** ** Rates *)

Lemma getRate_of_int (v b : Z) :
  0 < v < 2 ^ 53 -> getRate (Rate.NewLimiter (Rate.of_int v) b) = fmt_v v.
Proof.
  intros Hv. unfold getRate. cbn [Rate.limit].
  rewrite to_int_of_int by assumption.
  destruct (Z.gtb_spec v 0); [reflexivity | lia].
Qed.

(** X3.  A positive rate below 2^53 set with [SetReadRate] or [SetWriteRate]
    is the rate [GetRate] reports for that direction, in decimal; the line
    of the other direction is as before. *)
Theorem GetRate_reports_rate (v : Z) (c : ExtentClient) :
  0 < v < 2 ^ 53 ->
  GetRate (SetReadRate v c).1 =
    "read: " +:+ fmt_v v +:+ newline +:+
    "write: " +:+ getRate (writeLimiter c) +:+ newline /\
  GetRate (SetWriteRate v c).1 =
    "read: " +:+ getRate (readLimiter c) +:+ newline +:+
    "write: " +:+ fmt_v v +:+ newline.
Proof.
  intros Hv. unfold SetReadRate, SetWriteRate.
  rewrite !setRate_limited by lia.
  unfold GetRate, Rate.SetLimit. cbn [fst readLimiter writeLimiter
    set_readLimiter set_writeLimiter set_originReadRate set_originWriteRate].
  rewrite !getRate_of_int by assumption. split; reflexivity.
Qed.

Lemma GetRate_reports_rate_witness :
  GetRate (SetReadRate 1048576 (Sim.client0 false)).1 =
    "read: 1048576" +:+ newline +:+ "write: unlimited" +:+ newline.
Proof.
  destruct (GetRate_reports_rate 1048576 (Sim.client0 false)) as [Hread _].
  - lia.
  - rewrite Hread. reflexivity.
Defined.

(** X4.  The rate setters compose: of two settings of one direction the
    later alone counts, the two directions do not disturb each other, and
    either order of setting them gives the same client. *)
Theorem SetRate_compose (a b : Z) (c : ExtentClient) :
  SetReadRate b (SetReadRate a c).1 = SetReadRate b c /\
  SetWriteRate b (SetWriteRate a c).1 = SetWriteRate b c /\
  (SetWriteRate b (SetReadRate a c).1).1 = (SetReadRate a (SetWriteRate b c).1).1 /\
  writeLimiter (SetReadRate a c).1 = writeLimiter c /\
  originWriteRate (SetReadRate a c).1 = originWriteRate c /\
  readLimiter (SetWriteRate b c).1 = readLimiter c /\
  originReadRate (SetWriteRate b c).1 = originReadRate c.
Proof.
  unfold SetReadRate, SetWriteRate, setRate.
  destruct (a >? 0), (b >? 0); repeat split.
Qed.

(** ** Construction *)

(** X5.  [NewExtentClient] returns for every configuration, and the client
    it returns has: an extent size that is a power of two from 1 MiB to
    128 MiB; the configured alignment capped at 128 KiB; a tiny-extent limit
    that is never the marker -1; the configured rates as its own rates when
    positive, else 0; no streamer; an open stop channel; and as its wrapper
    the one it was given after [InitFollowerRead] and then [SetNearRead]
    were called on it with the read policies of the configuration,
    whatever these two methods do. *)
Theorem NewExtentClient_invariants {Env : Type} {X : Externals Env}
  (config : ExtentConfig) (wrapper : Wrapper) :
  exists c : ExtentClient,
    NewExtentClient config wrapper = Some c /\
    (exists k, 20 <= k <= 27 /\ extentSize c = 2 ^ k) /\
    alignSize c = Z.min (AlignSize config) (128 * 1024) /\
    tinySize c <> NoUseTinyExtent /\
    originReadRate c = Z.max 0 (ReadRate config) /\
    originWriteRate c = Z.max 0 (WriteRate config) /\
    streamerConcurrentMap c = ∅ /\
    stopC c = false /\
    dataWrapper c =
      Wrapper_SetNearRead (NearRead config)
        (Wrapper_InitFollowerRead (FollowerRead config) wrapper).
Proof.
  unfold NewExtentClient.
  destruct (ReadRate config <=? 0) eqn:Hr;
    destruct (WriteRate config <=? 0) eqn:Hw;
    match goal with
    | |- context [SetExtentSize ?sz ?c0] =>
        destruct (SetExtentSize_result sz c0) as (k & Hk & -> & _)
    end;
    (eexists; split; [reflexivity|]);
    cbn [extentSize alignSize tinySize originReadRate originWriteRate
         streamerConcurrentMap stopC dataWrapper set_extentSize];
    (split; [now exists k|]);
    (split; [unfold defaultMaxAlignSize;
             destruct (Z.gtb_spec (AlignSize config) (128 * 1024)); lia|]);
    (split; [unfold NoUseTinyExtent;
             repeat match goal with
                    | |- context [if ?b then _ else _] => destruct b eqn:?
                    end; lia|]);
    apply Z.leb_le in Hr || apply Z.leb_gt in Hr;
    apply Z.leb_le in Hw || apply Z.leb_gt in Hw;
    repeat split; lia.
Qed.

(** X6.  The rates of the configuration are the rates [GetRate] reports on
    the client [NewExtentClient] returns: a rate that is not positive as
    "unlimited", a positive one (below 2^53) in decimal. *)
Theorem NewExtentClient_GetRate {Env : Type} {X : Externals Env}
  (config : ExtentConfig) (wrapper : Wrapper) (c : ExtentClient) :
  NewExtentClient config wrapper = Some c ->
  ReadRate config < 2 ^ 53 ->
  WriteRate config < 2 ^ 53 ->
  GetRate c =
    "read: " +:+ show_rate (ReadRate config) +:+ newline +:+
    "write: " +:+ show_rate (WriteRate config) +:+ newline.
Proof.
  intros Hnew Hr53 Hw53. unfold NewExtentClient in Hnew.
  unfold show_rate.
  destruct (Z.leb_spec (ReadRate config) 0) as [Hr|Hr];
    destruct (Z.leb_spec (WriteRate config) 0) as [Hw|Hw];
    match type of Hnew with
    | SetExtentSize ?sz ?c0 = _ =>
        destruct (SetExtentSize_result sz c0) as (k & Hk & Hres & _);
        rewrite Hres in Hnew; injection Hnew as <-
    end;
    unfold GetRate;
    cbn [readLimiter writeLimiter set_extentSize];
    unfold defaultReadLimitRate, defaultWriteLimitRate;
    rewrite ?getRate_Inf, ?getRate_of_int by lia;
    destruct (Z.gtb_spec (ReadRate config) 0);
    destruct (Z.gtb_spec (WriteRate config) 0); try lia; reflexivity.
Qed.

Lemma NewExtentClient_GetRate_witness :
  GetRate (Sim.client0 false) =
    "read: unlimited" +:+ newline +:+ "write: unlimited" +:+ newline.
Proof.
  rewrite (NewExtentClient_GetRate (X := Sim.externals) (Sim.config0 0)
             (Sim.wrapper0 false) (Sim.client0 false)).
  - reflexivity.
  - reflexivity.
  - reflexivity.
  - reflexivity.
Defined.


Section Mounting.

Context {Env DataState : Type} {X : Externals Env}
  {Mt : MountExternals Env DataState}.

(** With [limit] retries left, at most [limit] attempts fail before the
    last one, each followed by a sleep; when the last one fails too, all
    the retries are used up and its error comes back, traced. *)
Lemma mount_retry_attempts (limit : nat) (volume : string)
  (masters : list string) :
  forall e : Env,
  exists (failures : list error) (last : option error),
    (length failures <= limit)%nat /\
    (mount_retry limit volume masters e).2
      = mount_trace volume masters failures last /\
    match last with
    | None => (mount_retry limit volume masters e).1.1.2 = None
    | Some er =>
        length failures = limit /\
        (mount_retry limit volume masters e).1.1
          = (None, Some (errors_Trace er "Init data wrapper failed!"))
    end.
Proof.
  induction limit as [|limit IH]; intros e; cbn [mount_retry].
  - destruct (NewDataPartitionWrapper volume masters e) as [e1 [wrapper [er|]]].
    + exists [], (Some er). cbn. repeat split; lia.
    + exists [], None. cbn. repeat split; lia.
  - destruct (NewDataPartitionWrapper volume masters e) as [e1 [wrapper [er|]]].
    + destruct (IH (time_Sleep MountRetryInterval e1))
        as (failures & last & Hlen & Htr & Hlast).
      destruct (mount_retry limit volume masters
                  (time_Sleep MountRetryInterval e1)) as [[r e2] t].
      cbn [fst snd] in *. subst t.
      exists (er :: failures), last. split; [cbn; lia|].
      split; [reflexivity|].
      destruct last as [er'|]; [|exact Hlast].
      destruct Hlast as [Hfull Hres]. split; [cbn; lia | exact Hres].
    + exists [], None. cbn. repeat split; lia.
Qed.

(** X7.  Without a saved data state, [NewExtentClient] tries to build the
    wrapper at most six times: every failed attempt but the sixth is
    followed by a sleep of the retry interval and another attempt, the
    first success ends the mounting, and only a sixth failure makes the
    constructor give up, with that failure's error traced as "Init data
    wrapper failed!".  With a saved data state the wrapper is rebuilt
    without any attempt, sleep or error. *)
Theorem NewExtentClient_mount_attempts (config : ExtentConfig) (e : Env) :
  (exists (failures : list error) (last : option error),
     (length failures <= 5)%nat /\
     (NewExtentClient_mount config None e).2
       = mount_trace (Volume config) (Masters config) failures last /\
     match last with
     | None => (NewExtentClient_mount config None e).1.1.2 = None
     | Some er =>
         length failures = 5%nat /\
         (NewExtentClient_mount config None e).1.1
           = (None, Some (errors_Trace er "Init data wrapper failed!"))
     end) /\
  (forall ds : DataState,
     (NewExtentClient_mount config (Some ds) e).1.1.2 = None /\
     (NewExtentClient_mount config (Some ds) e).2
       = [EvRebuildDataPartitionWrapper (Volume config) (Masters config)]).
Proof.
  split.
  - apply (mount_retry_attempts 5).
  - intros ds. unfold NewExtentClient_mount.
    destruct (RebuildDataPartitionWrapper (Volume config) (Masters config) ds e)
      as [e1 wrapper].
    split; reflexivity.
Qed.

End Mounting.

(** The master down twice: the third attempt mounts, after two sleeps. *)
Example mount_after_two_failures :
  NewExtentClient_mount (X := SimMount.externals) (DataState := unit)
    (Sim.config0 0) None SimMount.down_twice
  = ((Some (Sim.wrapper0 false), None), ([], 10),
     mount_trace "vol" [] ["timeout"%string; "timeout"%string] None).
Proof. reflexivity. Qed.

(** The master down for good: six attempts, five sleeps, and the error. *)
Example mount_gives_up :
  (NewExtentClient_mount (X := SimMount.externals) (DataState := unit)
     (Sim.config0 0) None SimMount.down).1.1
    = (None, Some "Init data wrapper failed!: timeout"%string) /\
  (NewExtentClient_mount (X := SimMount.externals) (DataState := unit)
     (Sim.config0 0) None SimMount.down).2
    = mount_trace "vol" [] (replicate 5 "timeout"%string) (Some "timeout"%string).
Proof. split; reflexivity. Qed.

(** ** Messages *)

Lemma prefix_empty (s : string) : String.prefix "" s = true.
Proof. now destruct s. Qed.

Lemma prefix_app_l (sub a b : string) :
  String.prefix sub a = true -> String.prefix sub (a +:+ b) = true.
Proof.
  revert a. induction sub as [|c sub IH]; intros a Hpre;
    [apply prefix_empty|].
  destruct a as [|d a]; [discriminate|].
  change (String d a +:+ b) with (String d (a +:+ b)).
  cbn [String.prefix] in *.
  destruct (Ascii.ascii_dec c d); [now apply IH | discriminate].
Qed.

Lemma strings_Contains_app_l (a b sub : string) :
  strings_Contains a sub = true -> strings_Contains (a +:+ b) sub = true.
Proof.
  induction a as [|c a IH]; cbn [strings_Contains]; intros Hin.
  - rewrite orb_false_r in Hin.
    destruct sub as [|d sub]; [|discriminate].
    change ("" +:+ b) with b. destruct b; reflexivity.
  - apply orb_true_iff in Hin as [Hpre|Hin].
    + change (String c a +:+ b) with (String c (a +:+ b)).
      cbn [strings_Contains].
      change (String c (a +:+ b)) with (String c a +:+ b).
      now rewrite (prefix_app_l _ _ _ Hpre).
    + change (String c a +:+ b) with (String c (a +:+ b)).
      cbn [strings_Contains]. rewrite (IH Hin). apply orb_true_r.
Qed.

Lemma strings_Contains_app_r (a b sub : string) :
  strings_Contains b sub = true -> strings_Contains (a +:+ b) sub = true.
Proof.
  intros Hin. induction a as [|c a IH]; [exact Hin|].
  change (String c a +:+ b) with (String c (a +:+ b)).
  cbn [strings_Contains]. rewrite IH. apply orb_true_r.
Qed.

(** ** Streams that are not open, extents that are not fetched *)

Section Unopened.

Context {Env : Type} {X : Externals Env}.

Lemma not_opened_says (prefix : string) : says_not_opened (Some (not_opened prefix)).
Proof.
  eexists. split; [reflexivity|]. unfold not_opened.
  apply strings_Contains_app_r, strings_Contains_app_r. reflexivity.
Qed.

(** X8.  On an inode without a streamer (the volume existing), [Write],
    [SyncWrite], [SyncWriteToSpecificExtent], [Truncate], [Flush], [Read]
    of a size other than 0, [ExtentMerge] and [RefreshExtentsCache] fail
    with an error that says "stream is not opened yet"; they report nothing
    written or read, call no streamer and leave the world as it is. *)
Theorem stream_not_opened (w : World Env) (inode : N) :
  Wrapper_VolNotExists (dataWrapper (client w)) = false ->
  streamerConcurrentMap (client w) !! inode = None ->
  (forall offset data direct overWriteBuffer,
     exists err, says_not_opened err /\
       Write inode offset data direct overWriteBuffer w
         = ((0, false, err), w, [])) /\
  (forall offset data,
     exists err, says_not_opened err /\
       SyncWrite inode offset data w = (Return (None, 0, None, err), w, [])) /\
  (forall dp fileOffset extentOffset data extID,
     exists err, says_not_opened err /\
       SyncWriteToSpecificExtent dp inode fileOffset extentOffset data extID w
         = ((0, err), w, [])) /\
  (forall size,
     exists err, says_not_opened err /\ Truncate inode size w = (err, w, [])) /\
  (exists err, says_not_opened err /\ Flush inode w = (err, w, [])) /\
  (forall data offset size, size <> 0 ->
     exists err, says_not_opened err /\
       Read inode data offset size w = ((data, 0, false, err), w, [])) /\
  (exists err, says_not_opened err /\
     ExtentMerge inode w = ((true, err), w, [])) /\
  (exists err, says_not_opened err /\
     RefreshExtentsCache inode w = (err, w, [])).
Proof.
  intros Hvol Hnone.
  unfold Write, SyncWrite, SyncWriteToSpecificExtent, Truncate, Flush, Read,
    ExtentMerge, RefreshExtentsCache, GetStreamer, bind, gets, ret.
  rewrite Hvol, Hnone.
  split; [|split; [|split; [|split; [|split; [|split; [|split]]]]]].
  - intros. eexists. split; [apply not_opened_says | reflexivity].
  - intros. eexists. split; [apply not_opened_says | reflexivity].
  - intros. eexists. split; [|reflexivity].
    eexists. split; [reflexivity|].
    apply strings_Contains_app_r, strings_Contains_app_r. reflexivity.
  - intros. eexists. split; [apply not_opened_says | reflexivity].
  - eexists. split; [|reflexivity].
    eexists. split; [reflexivity|].
    apply strings_Contains_app_l. reflexivity.
  - intros data offset size Hsize.
    destruct (Z.eqb_spec size 0) as [|_]; [contradiction|].
    cbv beta iota zeta. rewrite Hvol. cbv beta iota zeta. rewrite Hnone.
    eexists. split; [|reflexivity].
    eexists. split; [reflexivity|].
    apply strings_Contains_app_l. reflexivity.
  - eexists. split; [|reflexivity].
    eexists. split; [reflexivity | reflexivity].
  - eexists. split; [|reflexivity].
    eexists. split; [reflexivity|].
    apply strings_Contains_app_l. reflexivity.
Qed.


(** X10.  When the extents of an open stream are not initialized once the
    one-shot fetch is through (the volume existing), [Write], [Truncate],
    [Read] of a size other than 0 and [ExtentMerge] fail with
    [ErrGetExtentsFailed]: beyond the fetch they call no streamer and
    change nothing, and nothing is reported written or read.
    [RefreshExtentsCache] does not go through the latch: it calls
    [GetExtents] whatever the latch and returns what that returns. *)
Theorem extents_not_fetched (w : World Env) (inode : N) (s : ptr) :
  Wrapper_VolNotExists (dataWrapper (client w)) = false ->
  streamerConcurrentMap (client w) !! inode = Some s ->
  initialized (extents (heap (final (fetch_once inode s) w) s)) = false ->
  let fetched := final (fetch_once inode s) w in
  let calls := trace (fetch_once inode s) w in
  (forall offset data direct overWriteBuffer,
     Write inode offset data direct overWriteBuffer w
       = ((0, false, Some ErrGetExtentsFailed), fetched, calls)) /\
  (forall size,
     Truncate inode size w = (Some ErrGetExtentsFailed, fetched, calls)) /\
  (forall data offset size, size <> 0 ->
     Read inode data offset size w
       = ((data, 0, false, Some ErrGetExtentsFailed), fetched, calls)) /\
  ExtentMerge inode w = ((true, Some ErrGetExtentsFailed), fetched, calls) /\
  RefreshExtentsCache inode w
    = ((GetExtents s w).2, (GetExtents s w).1,
       [EvStreamer inode s (CallGetExtents (GetExtents s w).2)]).
Proof.
  intros Hvol Hs Hinit fetched calls.
  assert (Hrun : fetch_once inode s w = (tt, fetched, calls)).
  { unfold fetched, calls, final, trace.
    destruct (fetch_once inode s w) as [[[] w1] t1]. reflexivity. }
  fold fetched in Hinit.
  split; [|split; [|split; [|split]]].
  - intros. unfold Write, GetStreamer.
    step_gets Hvol. step_gets Hs. step_run Hrun. step_gets Hinit.
    unfold ret. now rewrite app_nil_r.
  - intros. unfold Truncate, GetStreamer.
    step_gets Hvol. step_gets Hs. step_run Hrun. step_gets Hinit.
    unfold ret. now rewrite app_nil_r.
  - intros data offset size Hsize. unfold Read, GetStreamer.
    destruct (Z.eqb_spec size 0) as [|_]; [contradiction|].
    step_gets Hvol. step_gets Hs. step_run Hrun. step_gets Hinit.
    unfold ret. now rewrite app_nil_r.
  - unfold ExtentMerge, GetStreamer.
    step_gets Hs. step_run Hrun. step_gets Hinit.
    unfold ret. now rewrite app_nil_r.
  - unfold RefreshExtentsCache, GetStreamer.
    step_gets Hs. unfold streamer_call, call.
    destruct (GetExtents s w) as [w1 err]. reflexivity.
Qed.

End Unopened.

Lemma stream_not_opened_witness :
  (exists err, says_not_opened err /\
     Flush 7 SimMore.world_open = (err, SimMore.world_open, [])) /\
  (exists err, says_not_opened err /\
     Read 7 [] 0 10 SimMore.world_open
       = (([], 0, false, err), SimMore.world_open, [])).
Proof.
  destruct (stream_not_opened (X := Sim.externals) SimMore.world_open 7
              eq_refl eq_refl) as (_ & _ & _ & _ & Hflush & Hread & _).
  split; [exact Hflush | apply Hread; discriminate].
Defined.


Lemma extents_not_fetched_witness :
  Write 42 0 [Byte.x01] false false SimMore.world_latched
    = ((0, false, Some ErrGetExtentsFailed), SimMore.world_latched, []) /\
  ExtentMerge 42 SimMore.world_latched
    = ((true, Some ErrGetExtentsFailed), SimMore.world_latched, []).
Proof.
  destruct (extents_not_fetched (X := Sim.externals) SimMore.world_latched 42 1
              eq_refl eq_refl eq_refl) as (Hwrite & _ & _ & Hmerge & _).
  split; [apply Hwrite | exact Hmerge].
Defined.

(** ** Reading and writing: what is called, and how often *)

Section Calls.

Context {Env : Type} {X : Externals Env}.

(** X11.  Whatever the world and the arguments, [Read] calls the streamer
    registered for its inode only, and only to fetch the extents, refresh the expired
    cache, read and flush: it reads at most twice, flushes at most once and
    fetches the extents at most twice (once through the latch, once before
    the retry). *)
Theorem Read_calls_bounded (w : World Env) (inode offset : N) (size : Z)
  (data : list Byte.byte) :
  (streamer_calls is_CallRead (trace (Read inode data offset size) w) <= 2)%nat /\
  (streamer_calls is_CallIssueFlushRequest
     (trace (Read inode data offset size) w) <= 1)%nat /\
  (streamer_calls is_CallGetExtents
     (trace (Read inode data offset size) w) <= 2)%nat /\
  Forall (fun e => exists s c,
            streamerConcurrentMap (client w) !! inode = Some s /\
            e = EvStreamer inode s c /\ is_read_path c = true)
    (trace (Read inode data offset size) w).
Proof.
  unfold trace, Read, GetStreamer, fetch_once, once_Do, streamer_call, call,
    bind, gets, modify, ret.
  destruct (streamerConcurrentMap (client w) !! inode) as [s|] eqn:Hs;
    split_run; cbn; repeat split; try lia; repeat constructor; eauto.
Qed.

(** X12.  A first read attempt that succeeds, or fails with an error that
    does not contain [ExtentNotFoundError], is what [Read] returns: bytes
    read, hole flag and error as the streamer gave them, with no flush, no
    second fetch and no retry. *)
Theorem Read_first_attempt (w w1 w2 w3 : World Env) (inode offset : N)
  (size : Z) (data data1 : list Byte.byte) (s : ptr) (t1 : list Event)
  (read1 : Z) (hasHole1 : bool) (err1 : option error) :
  size <> 0 ->
  Wrapper_VolNotExists (dataWrapper (client w)) = false ->
  streamerConcurrentMap (client w) !! inode = Some s ->
  fetch_once inode s w = (tt, w1, t1) ->
  initialized (extents (heap w1 s)) = true ->
  UpdateExpiredExtentCache s w1 = (w2, tt) ->
  read s data offset size w2 = (w3, (data1, read1, hasHole1, err1)) ->
  match err1 with
  | Some e1 => strings_Contains e1 ExtentNotFoundError
  | None => false
  end = false ->
  Read inode data offset size w
    = ((data1, read1, hasHole1, err1), w3,
       t1 ++ [EvStreamer inode s CallUpdateExpiredExtentCache;
              EvStreamer inode s
                (CallRead data offset size (data1, read1, hasHole1, err1))]).
Proof.
  intros Hsize Hvol Hs Hfetch Hinit Hupd Hread Hother.
  unfold Read, GetStreamer.
  destruct (Z.eqb_spec size 0) as [|_]; [contradiction|].
  step_gets Hvol. step_gets Hs. step_run Hfetch. step_gets Hinit.
  step_call Hupd. step_call Hread.
  destruct err1 as [e1|]; [rewrite Hother|]; unfold ret; cbn; reflexivity.
Qed.

(** The buffering loop calls nothing but [appendOverWriteReq]. *)
Lemma Write_overWrite_calls (p : StreamerCall -> bool) (inode : N) (s : ptr)
  (direct : bool) (requests : list ExtentRequest) :
  (forall req d n, p (CallAppendOverWriteReq req d n) = false) ->
  forall (acc : Z) (w : World Env),
    streamer_calls p (trace (Write_overWrite inode s direct requests acc) w)
      = 0%nat.
Proof.
  intros Hp. induction requests as [|req rest IH]; intros acc w.
  - reflexivity.
  - cbn [Write_overWrite]. rewrite trace_bind.
    unfold streamer_calls in *. rewrite List.filter_app, length_app, IH.
    unfold trace, streamer_call, call.
    destruct (appendOverWriteReq s req direct w) as [w1 n]. cbn.
    now rewrite Hp.
Qed.

(** X13.  Whatever the world and the arguments, [Write] issues at most one
    write request and asks for the requests at most once; when it issues a
    write request it has buffered nothing, so that data goes either to the
    overwrite buffer or to the worker, never to both; and without
    [overWriteBuffer] it neither asks for the requests nor buffers. *)
Theorem Write_calls_bounded (w : World Env) (inode offset : N)
  (data : list Byte.byte) (direct overWriteBuffer : bool) :
  let t := trace (Write inode offset data direct overWriteBuffer) w in
  (streamer_calls is_CallIssueWriteRequest t <= 1)%nat /\
  (streamer_calls is_CallPrepareRequests t <= 1)%nat /\
  (streamer_calls is_CallIssueWriteRequest t = 1%nat ->
   streamer_calls is_CallAppendOverWriteReq t = 0%nat) /\
  (overWriteBuffer = false ->
   streamer_calls is_CallPrepareRequests t = 0%nat /\
   streamer_calls is_CallAppendOverWriteReq t = 0%nat).
Proof.
  intros t. subst t.
  unfold Write, GetStreamer. unfold trace at 1 2 3 4 5 6.
  unfold fetch_once, once_Do, streamer_call, call, bind, gets, modify, ret.
  split_run; cbn;
    repeat match goal with
    | H : Write_overWrite ?i ?s ?d ?r ?a ?w0 = (_, _, ?l) |- _ =>
        let Hi := fresh in
        let Hp := fresh in
        pose proof (Write_overWrite_calls is_CallIssueWriteRequest i s d r
                      ltac:(reflexivity) a w0) as Hi;
        pose proof (Write_overWrite_calls is_CallPrepareRequests i s d r
                      ltac:(reflexivity) a w0) as Hp;
        unfold trace in Hi, Hp; rewrite H in Hi, Hp; cbn in Hi, Hp;
        unfold streamer_calls in Hi, Hp |- *;
        rewrite ?List.filter_app, ?length_app, ?Hi, ?Hp;
        clear H
    end;
    cbn; repeat split; intros; try lia; try discriminate.
Qed.

End Calls.

Lemma Read_first_attempt_witness :
  Read 42 [] 0 10 SimMore.world_open
    = (([], 10, false, None), SimMore.world_open,
       [EvStreamer 42 1 CallUpdateExpiredExtentCache;
        EvStreamer 42 1 (CallRead [] 0 10 ([], 10, false, None))]).
Proof.
  apply (Read_first_attempt (X := Sim.externals) SimMore.world_open
           SimMore.world_open SimMore.world_open SimMore.world_open
           42 0 10 [] [] 1 [] 10 false None);
    [discriminate | reflexivity | reflexivity | reflexivity | reflexivity
    | reflexivity | reflexivity | reflexivity].
Defined.

Lemma Write_calls_bounded_witness :
  streamer_calls is_CallPrepareRequests
    (trace (Write 42 0 [Byte.x01] false false) SimMore.world_open) = 0%nat /\
  streamer_calls is_CallAppendOverWriteReq
    (trace (Write 42 1023 [Byte.x01; Byte.x02] false true) SimMore.world_open)
    = 0%nat.
Proof.
  split.
  - destruct (Write_calls_bounded (X := Sim.externals) SimMore.world_open 42 0
                [Byte.x01] false false) as (_ & _ & _ & Hplain).
    apply (Hplain eq_refl).
  - destruct (Write_calls_bounded (X := Sim.externals) SimMore.world_open 42
                1023 [Byte.x01; Byte.x02] false true) as (_ & _ & Hissued & _).
    apply Hissued. reflexivity.
Defined.

(** ** Synchronous writes, opening, closing *)

Section Streams.

Context {Env : Type} {X : Externals Env}.

(** X14.  [SyncWrite] on an open stream (the volume existing) makes one
    call, [writeToNewExtent] on a request for the whole of the data at the
    offset, without extent key.  When that fails, its error comes back with
    no key.  When it succeeds, the key returned lies on the partition and
    extent written, at extent offset 0 and file offset [offset], and its
    size is the length of the data whenever that is below 2^32. *)
Theorem SyncWrite_key (w w1 : World Env) (inode offset : N)
  (data : list Byte.byte) (s : ptr) (dp : option DataPartition)
  (exID write : Z) (err : option error) :
  Wrapper_VolNotExists (dataWrapper (client w)) = false ->
  streamerConcurrentMap (client w) !! inode = Some s ->
  let oriReq := {| FileOffset := offset; Size := GoInt.len data;
                   Data := data; req_ExtentKey := None |} in
  writeToNewExtent s oriReq true w = (w1, (dp, exID, write, err)) ->
  final (SyncWrite inode offset data) w = w1 /\
  trace (SyncWrite inode offset data) w
    = [EvStreamer inode s
         (CallWriteToNewExtent oriReq true (dp, exID, write, err))] /\
  (forall e, err = Some e ->
     result (SyncWrite inode offset data) w = Return (dp, write, None, Some e)) /\
  (forall d, err = None -> dp = Some d ->
     exists newEk,
       result (SyncWrite inode offset data) w
         = Return (Some d, write, Some newEk, None) /\
       PartitionId newEk = PartitionID d /\
       ExtentId newEk = GoInt.to_uint64 exID /\
       (0 <= exID < 2 ^ 64 -> ExtentId newEk = Z.to_N exID) /\
       ExtentOffset newEk = 0%N /\
       ek_FileOffset newEk = offset /\
       (GoInt.len data < 2 ^ 32 -> ek_Size newEk = N.of_nat (length data))) /\
  (err = None -> dp = None ->
     result (SyncWrite inode offset data) w = Panic "nil pointer dereference").
Proof.
  intros Hvol Hs oriReq Hcall.
  assert (Hrun :
    SyncWrite inode offset data w =
      (match err with
       | Some e => Return (dp, write, None, Some e)
       | None =>
           match dp with
           | None => Panic "nil pointer dereference"
           | Some d =>
               Return (dp, write,
                       Some {| PartitionId := PartitionID d;
                               ExtentId := GoInt.to_uint64 exID;
                               ExtentOffset := 0;
                               ek_FileOffset := offset;
                               ek_Size := GoInt.to_uint32 (GoInt.len data) |},
                       None)
           end
       end, w1,
       [EvStreamer inode s
          (CallWriteToNewExtent oriReq true (dp, exID, write, err))])).
  { unfold SyncWrite, GetStreamer.
    step_gets Hvol. step_gets Hs. fold oriReq. step_call Hcall.
    destruct err as [e|]; [reflexivity|]. destruct dp as [d|]; reflexivity. }
  unfold final, trace, result. rewrite Hrun. cbn [fst snd].
  split; [reflexivity|]. split; [reflexivity|].
  split; [|split].
  - intros e ->. reflexivity.
  - intros d -> ->. eexists. split; [reflexivity|]. cbn.
    repeat split.
    + intros Hex. unfold GoInt.to_uint64. now rewrite Z.mod_small.
    + intros Hlen. unfold GoInt.to_uint32.
      rewrite Z.mod_small by (unfold GoInt.len in *; lia).
      unfold GoInt.len. lia.
  - intros -> ->. reflexivity.
Qed.

(** X15.  [OpenStream] creates a streamer only for an inode that has none.
    On an inode with a streamer it issues one open request to that
    streamer and nothing else, whatever [appendWriteBuffer] and
    [readAhead] are: the flags of a later open are dropped.  On an inode
    without one it calls [NewStreamer] with the flags, registers the new
    streamer under the inode, and then issues the open request to it. *)
Theorem OpenStream_creates_once (w : World Env) (inode : N)
  (appendWriteBuffer readAhead : bool) :
  (forall s,
     streamerConcurrentMap (client w) !! inode = Some s ->
     OpenStream inode appendWriteBuffer readAhead w
       = ((IssueOpenRequest s w).2, (IssueOpenRequest s w).1,
          [EvStreamer inode s (CallIssueOpenRequest (IssueOpenRequest s w).2)])
     /\ forall a r, OpenStream inode a r w
                    = OpenStream inode appendWriteBuffer readAhead w) /\
  (streamerConcurrentMap (client w) !! inode = None ->
   let created := NewStreamer inode appendWriteBuffer readAhead w in
   let s := created.2 in
   let registered :=
     set_client
       (set_streamerConcurrentMap
          (<[inode:=s]> (streamerConcurrentMap (client created.1)))
          (client created.1)) created.1 in
   streamerConcurrentMap (client registered) !! inode = Some s /\
   OpenStream inode appendWriteBuffer readAhead w
     = ((IssueOpenRequest s registered).2, (IssueOpenRequest s registered).1,
        [EvNewStreamer inode appendWriteBuffer readAhead s;
         EvStreamer inode s
           (CallIssueOpenRequest (IssueOpenRequest s registered).2)])).
Proof.
  split.
  - intros s Hs.
    assert (Hrun : forall a r,
      OpenStream inode a r w
        = ((IssueOpenRequest s w).2, (IssueOpenRequest s w).1,
           [EvStreamer inode s
              (CallIssueOpenRequest (IssueOpenRequest s w).2)])).
    { intros a r. unfold OpenStream. step_gets Hs.
      unfold bind, ret, streamer_call, call.
      destruct (IssueOpenRequest s w) as [w1 err]. reflexivity. }
    split; [apply Hrun|]. intros a r. now rewrite !Hrun.
  - intros Hnone created s registered.
    split; [apply lookup_insert_eq|].
    unfold OpenStream. step_gets Hnone.
    unfold bind, ret, modify, streamer_call, call.
    subst registered s created.
    destruct (NewStreamer inode appendWriteBuffer readAhead w) as [w1 s].
    cbn [fst snd].
    match goal with
    | |- context [IssueOpenRequest s ?w2] =>
        destruct (IssueOpenRequest s w2) as [w3 err]
    end.
    reflexivity.
Qed.

(** X16.  On an inode with a streamer, [CloseStream] issues a release
    request and [MustCloseStream] a must-release request, and each returns
    what the streamer answers.  [EvictStream] issues an evict request: when
    that fails, its error is returned and the worker is left alone; only
    when it succeeds does [EvictStream] send on [done] and wait for the
    worker, and then it returns nil. *)
Theorem close_opened_stream (w : World Env) (inode : N) (s : ptr) :
  streamerConcurrentMap (client w) !! inode = Some s ->
  CloseStream inode w
    = ((IssueReleaseRequest s w).2, (IssueReleaseRequest s w).1,
       [EvStreamer inode s
          (CallIssueReleaseRequest (IssueReleaseRequest s w).2)]) /\
  MustCloseStream inode w
    = ((IssueMustReleaseRequest s w).2, (IssueMustReleaseRequest s w).1,
       [EvStreamer inode s
          (CallIssueMustReleaseRequest (IssueMustReleaseRequest s w).2)]) /\
  (forall e, (IssueEvictRequest s w).2 = Some e ->
     EvictStream inode w
       = (Some e, (IssueEvictRequest s w).1,
          [EvStreamer inode s (CallIssueEvictRequest (Some e))])) /\
  ((IssueEvictRequest s w).2 = None ->
   EvictStream inode w
     = (None, (IssueEvictRequest s w).1,
        [EvStreamer inode s (CallIssueEvictRequest None);
         EvStreamer inode s CallDoneSend;
         EvStreamer inode s CallWgWait])).
Proof.
  intros Hs.
  unfold CloseStream, MustCloseStream, EvictStream.
  repeat split.
  - step_gets Hs. unfold streamer_call, call.
    now destruct (IssueReleaseRequest s w).
  - step_gets Hs. unfold streamer_call, call.
    now destruct (IssueMustReleaseRequest s w).
  - intros e He. step_gets Hs. unfold bind, ret, streamer_call, call.
    destruct (IssueEvictRequest s w) as [w1 err]. cbn in He. now subst err.
  - intros He. step_gets Hs. unfold bind, ret, emit, streamer_call, call.
    destruct (IssueEvictRequest s w) as [w1 err]. cbn in He. now subst err.
Qed.

(** X17.  [CloseConnPool] closes the connection pool at most once: after it
    the pool is nil, and on a nil pool it calls nothing and changes
    nothing, so that a second [CloseConnPool] is a no-op. *)
Theorem CloseConnPool_idempotent (w : World Env) :
  StreamConnPool (final CloseConnPool w) = None /\
  (StreamConnPool w = None -> CloseConnPool w = (tt, w, [])) /\
  CloseConnPool (final CloseConnPool w) = (tt, final CloseConnPool w, []) /\
  (forall p, StreamConnPool w = Some p ->
     trace CloseConnPool w = [EvConnPoolClose]).
Proof.
  assert (Hnil : forall w0 : World Env,
            StreamConnPool w0 = None -> CloseConnPool w0 = (tt, w0, [])).
  { intros w0 Hp. unfold CloseConnPool, bind, gets, ret. now rewrite Hp. }
  assert (Hafter : StreamConnPool (final CloseConnPool w) = None).
  { unfold final, CloseConnPool, bind, gets, ret, call, modify.
    destruct (StreamConnPool w) as [p|] eqn:Hp; [|exact Hp].
    now destruct (ConnPool_Close w). }
  repeat split.
  - exact Hafter.
  - apply Hnil.
  - now apply Hnil.
  - intros p Hp. unfold trace, CloseConnPool, bind, gets, ret, call, modify.
    rewrite Hp. now destruct (ConnPool_Close w).
Qed.

End Streams.

Lemma SyncWrite_key_witness :
  result (SyncWrite 42 100 [Byte.x01; Byte.x02]) SimMore.world_open
    = Return (Some {| PartitionID := 1 |}, 2,
              Some {| PartitionId := 1; ExtentId := 1; ExtentOffset := 0;
                      ek_FileOffset := 100; ek_Size := 2 |}, None).
Proof.
  destruct (SyncWrite_key (X := Sim.externals) SimMore.world_open
              SimMore.world_open 42 100 [Byte.x01; Byte.x02] 1
              (Some {| PartitionID := 1 |}) 1 2 None eq_refl eq_refl eq_refl)
    as (_ & _ & _ & Hkey & _).
  destruct (Hkey _ eq_refl eq_refl) as (newEk & -> & Hp & He & _ & Ho & Hf & Hs).
  destruct newEk as [p e o f sz]. cbn in *.
  rewrite Hp, He, Ho, Hf, Hs by reflexivity. reflexivity.
Defined.

Lemma OpenStream_creates_once_witness :
  trace (OpenStream 42 true true) SimMore.world_open
    = [EvStreamer 42 1 (CallIssueOpenRequest None)] /\
  trace (OpenStream 7 true false) SimMore.world_open
    = [EvNewStreamer 7 true false 2; EvStreamer 7 2 (CallIssueOpenRequest None)].
Proof.
  destruct (OpenStream_creates_once (X := Sim.externals) SimMore.world_open 42
              true true) as [Hopen _].
  destruct (OpenStream_creates_once (X := Sim.externals) SimMore.world_open 7
              true false) as [_ Hnew].
  split.
  - unfold trace. rewrite (proj1 (Hopen 1%N eq_refl)). reflexivity.
  - unfold trace. rewrite (proj2 (Hnew eq_refl)). reflexivity.
Defined.

Lemma close_opened_stream_witness :
  trace (EvictStream 42) SimMore.world_open
    = [EvStreamer 42 1 (CallIssueEvictRequest None);
       EvStreamer 42 1 CallDoneSend; EvStreamer 42 1 CallWgWait] /\
  streamerConcurrentMap (client (final (EvictStream 42) SimMore.world_open))
    !! 42%N = None.
Proof.
  destruct (close_opened_stream (X := Sim.externals) SimMore.world_open 42 1
              eq_refl) as (_ & _ & _ & Hevict).
  unfold trace, final. rewrite (Hevict eq_refl). split; reflexivity.
Defined.

Lemma CloseConnPool_idempotent_witness :
  CloseConnPool SimMore.world_no_pool = (tt, SimMore.world_no_pool, []) /\
  trace CloseConnPool SimMore.world_open = [EvConnPoolClose].
Proof.
  destruct (CloseConnPool_idempotent (X := Sim.externals) SimMore.world_no_pool)
    as (_ & Hnil & _).
  destruct (CloseConnPool_idempotent (X := Sim.externals) SimMore.world_open)
    as (_ & _ & _ & Hsome).
  split; [now apply Hnil | now apply (Hsome tt)].
Defined.

(** ** Configuration refresh: what it leaves alone, when it signals *)

Section Refreshing.

Context {Env : Type} {X : Externals Env}.

(** The run of a refresh that obtained the limit info: the rates are set in
    a world [W] that differs from the one found in rates and limits only,
    then the merge targets are taken over if merging is on, and the merger
    is signalled if it had no target and gets one. *)
Lemma updateConfig_run (w w1 : World Env) (li : LimitInfo) :
  GetLimitInfo (volName (dataWrapper (client w))) w = (w1, (li, None)) ->
  let vol := volName (dataWrapper (client w)) in
  let target := default [] (ExtentMergeIno li !! vol) in
  exists W : World Env,
    refresh_frame w1 W /\
    extentMergeIno (client W) = extentMergeIno (client w1) /\
    ExtentMergeSleepMs (client W) = ExtentMergeSleepMs (client w1) /\
    updateConfig w =
      (tt,
       (if extentMerge (client w1) then
          set_client
            (set_ExtentMergeSleepMs (li_ExtentMergeSleepMs li)
               (set_extentMergeIno target (client W))) W
        else W),
       EvGetLimitInfo vol (li, None) ::
       (if extentMerge (client w1) &&
           ((length (extentMergeIno (client w1)) =? 0)%nat &&
            (0 <? length target)%nat)
        then [EvExtentMergeChanSend] else [])).
Proof.
  intros Hfetch vol target.
  subst vol. unfold updateConfig.
  unfold bind at 1, gets at 1. cbv beta iota zeta.
  unfold bind at 1, call at 1. rewrite Hfetch. cbv beta iota.
  match goal with |- context [modify ?f] => set (F := f) end.
  exists (F w1).
  assert (Hframe : refresh_frame w1 (F w1) /\
                   extentMergeIno (client (F w1)) = extentMergeIno (client w1) /\
                   ExtentMergeSleepMs (client (F w1)) = ExtentMergeSleepMs (client w1)).
  { subst F. cbv beta.
    destruct (map_index (ClientReadVolRateLimitMap li) _) as [r ok].
    destruct (if negb ok then _ else _) as [r' ok'].
    destruct (map_index (ClientWriteVolRateLimitMap li) _) as [q okq].
    destruct (if negb okq then _ else _) as [q' okq'].
    unfold refresh_frame.
    repeat (cbn; innermost_if); cbn; repeat split. }
  destruct Hframe as (Hframe & Hino & Hsleep).
  split; [exact Hframe|]. split; [exact Hino|]. split; [exact Hsleep|].
  destruct Hframe as (_ & _ & _ & _ & _ & _ & _ & _ & _ & Hmerge & _).
  unfold bind at 1, modify at 1. cbv beta iota.
  unfold bind at 1, gets at 1. cbv beta iota.
  rewrite Hmerge. destruct (extentMerge (client w1)); [|reflexivity].
  cbv zeta. fold target.
  unfold bind at 1, gets at 1. cbv beta iota. rewrite Hino.
  cbn [andb].
  destruct ((length (extentMergeIno (client w1)) =? 0)%nat && (0 <? length target)%nat);
    reflexivity.
Qed.

(** X18.  A refresh, whether it obtains the limit info or not, leaves alone
    the client's own rates, the registry and the streamers, the wrapper,
    the extent, tiny and alignment sizes, the flags, the stop channel, the
    bursts of both limiters, the connection pool and the environment as
    the call of the master left them: it changes only the rates in force,
    the limits and the merge targets. *)
Theorem updateConfig_frame (w w1 : World Env) (li : LimitInfo)
  (err : option error) :
  GetLimitInfo (volName (dataWrapper (client w))) w = (w1, (li, err)) ->
  refresh_frame w1 (final updateConfig w).
Proof.
  intros Hfetch. destruct err as [e|].
  - assert (Hrun : final updateConfig w = w1).
    { unfold final, updateConfig, bind, gets, call, ret. cbn.
      now rewrite Hfetch. }
    rewrite Hrun. unfold refresh_frame. repeat split.
  - destruct (updateConfig_run w w1 li Hfetch) as (W & Hframe & _ & _ & Hrun).
    unfold final. rewrite Hrun. cbn [fst snd].
    destruct (extentMerge (client w1)); [|exact Hframe].
    unfold refresh_frame in *. cbn. exact Hframe.
Qed.

(** X19.  A refresh that obtains the limit info, on a client that merges
    extents in the background, takes over the inodes to merge and the sleep
    between merge steps from the master, and signals the merger exactly
    when the client had no inode to merge and the master names some.  On a
    client that does not merge, it never signals and keeps both fields. *)
Theorem updateConfig_merge_signal (w w1 : World Env) (li : LimitInfo) :
  GetLimitInfo (volName (dataWrapper (client w))) w = (w1, (li, None)) ->
  let target :=
    default [] (ExtentMergeIno li !! volName (dataWrapper (client w))) in
  (extentMerge (client w1) = true ->
   (EvExtentMergeChanSend ∈ trace updateConfig w <->
    extentMergeIno (client w1) = [] /\ target <> []) /\
   extentMergeIno (client (final updateConfig w)) = target /\
   ExtentMergeSleepMs (client (final updateConfig w))
     = li_ExtentMergeSleepMs li) /\
  (extentMerge (client w1) = false ->
   (EvExtentMergeChanSend ∉ trace updateConfig w) /\
   extentMergeIno (client (final updateConfig w))
     = extentMergeIno (client w1) /\
   ExtentMergeSleepMs (client (final updateConfig w))
     = ExtentMergeSleepMs (client w1)).
Proof.
  intros Hfetch target.
  destruct (updateConfig_run w w1 li Hfetch) as (W & _ & Hino & Hsleep & Hrun).
  fold target in Hrun.
  unfold trace, final. rewrite Hrun. cbn [fst snd]. split.
  - intros ->. cbn [andb]. split; [|split; reflexivity].
    destruct (extentMergeIno (client w1)) as [|i rest];
      destruct target as [|j more]; cbn; split.
    + intros Hin. apply list_elem_of_singleton in Hin. discriminate.
    + intros [_ Hne]. contradiction.
    + intros _. split; [reflexivity | discriminate].
    + intros _. apply elem_of_cons. right. apply list_elem_of_singleton.
      reflexivity.
    + intros Hin. apply list_elem_of_singleton in Hin. discriminate.
    + intros [Hnil _]. discriminate.
    + intros Hin. apply list_elem_of_singleton in Hin. discriminate.
    + intros [Hnil _]. discriminate.
  - intros ->. cbn [andb]. split; [|split; assumption].
    intros Hin. apply list_elem_of_singleton in Hin. discriminate.
Qed.

End Refreshing.

Lemma updateConfig_frame_witness :
  originWriteRate (client (final updateConfig Sim.world_rates)) = 7 /\
  Rate.burst (readLimiter (client (final updateConfig Sim.world_rates))) = 128.
Proof.
  destruct (updateConfig_frame (X := Sim.externals) Sim.world_rates
              Sim.world_rates Sim.read500 None eq_refl)
    as (_ & Hown & _ & _ & _ & _ & _ & _ & _ & _ & Hburst & _).
  rewrite Hown, Hburst. split; reflexivity.
Defined.

Lemma updateConfig_merge_signal_witness :
  EvExtentMergeChanSend ∈ trace updateConfig SimMore.world_merging /\
  extentMergeIno (client (final updateConfig SimMore.world_merging))
    = [7%N; 9%N] /\
  (EvExtentMergeChanSend ∉
    trace updateConfig (final updateConfig SimMore.world_merging)).
Proof.
  destruct (updateConfig_merge_signal (X := Sim.externals)
              SimMore.world_merging SimMore.world_merging SimMore.merge_7_9
              eq_refl) as [Hon _].
  destruct (Hon eq_refl) as (Hsignal & Htarget & _).
  assert (Hfetch :
    GetLimitInfo
      (volName (dataWrapper (client (final updateConfig SimMore.world_merging))))
      (final updateConfig SimMore.world_merging)
    = (final updateConfig SimMore.world_merging, (SimMore.merge_7_9, None)))
    by (vm_compute; reflexivity).
  destruct (updateConfig_merge_signal (X := Sim.externals)
              (final updateConfig SimMore.world_merging)
              (final updateConfig SimMore.world_merging) SimMore.merge_7_9
              Hfetch) as [Hagain _].
  destruct (Hagain eq_refl) as (Hsecond & _).
  split; [|split].
  - apply Hsignal. split; [reflexivity | discriminate].
  - exact Htarget.
  - intros Hin. apply Hsecond in Hin as [Hnil _]. discriminate.
Defined.

(** ** The walk for the inodes to merge *)

Section Walking.

Context {Meta : Type} {Mw : MetaExternals Meta}.

Lemma listed_app (pick : list Dentry -> list N) (t1 t2 : list ReadDirEvent) :
  listed pick (t1 ++ t2) = listed pick t1 ++ listed pick t2.
Proof. unfold listed. apply bind_app. Qed.

(** What one directory's loop adds, given what the calls on the
    subdirectories give. *)
Lemma lookupAllInode_range_spec
  (rec : N -> Meta -> option (list N * Meta * list ReadDirEvent)) :
  (forall p m inodes m' t,
     rec p m = Some (inodes, m', t) ->
     inodes ≡ₚ listed regular_of t /\
     directory_read <$> t ≡ₚ p :: listed directories_of t) ->
  forall dentries acc m t inodes m' t',
    lookupAllInode_range rec dentries acc m t = Some (inodes, m', t') ->
    exists sub,
      t' = t ++ sub /\
      inodes ≡ₚ acc ++ regular_of dentries ++ listed regular_of sub /\
      directory_read <$> sub
        ≡ₚ directories_of dentries ++ listed directories_of sub.
Proof.
  intros Hrec dentries.
  induction dentries as [|d rest IH]; intros acc m t inodes m' t' Hrun.
  - cbn in Hrun. injection Hrun as <- <- <-. exists [].
    rewrite !app_nil_r. cbn. repeat split; reflexivity.
  - cbn [lookupAllInode_range] in Hrun.
    unfold regular_of, directories_of. cbn [List.filter].
    destruct (IsRegular (Type_ d)) eqn:Hreg; cbn [negb andb].
    + apply IH in Hrun as (sub & -> & Hin & Hdir). exists sub.
      split; [reflexivity|]. split; [|exact Hdir].
      rewrite Hin, <- app_assoc. reflexivity.
    + destruct (IsDir (Type_ d)) eqn:Hd.
      * destruct (rec (Inode d) m) as [[[newInodes m1] t1]|] eqn:Hcall;
          [|discriminate].
        apply Hrec in Hcall as [Hnew Hreads].
        apply IH in Hrun as (sub & -> & Hin & Hdir). exists (t1 ++ sub).
        split; [now rewrite app_assoc|].
        rewrite !listed_app, fmap_app. split.
        -- rewrite Hin, Hnew. fold (regular_of rest).
           rewrite <- !app_assoc.
           apply Permutation_app_head.
           rewrite !app_assoc. apply Permutation_app_tail.
           apply Permutation_app_comm.
        -- rewrite Hreads, Hdir. cbn [fmap list_fmap].
           fold (directories_of rest).
           change (Inode d :: ?l) with ([Inode d] ++ l).
           cbn. constructor.
           rewrite !app_assoc. apply Permutation_app_tail.
           apply Permutation_app_comm.
      * apply IH in Hrun as (sub & -> & Hin & Hdir). exists sub.
        repeat split; assumption.
Qed.

Lemma lookupAllInode_spec (depth : nat) :
  forall parent m inodes m' t,
    lookupAllInode depth parent m = Some (inodes, m', t) ->
    inodes ≡ₚ listed regular_of t /\
    directory_read <$> t ≡ₚ parent :: listed directories_of t.
Proof.
  induction depth as [|depth IH]; intros parent m inodes m' t Hrun;
    [discriminate|].
  cbn [lookupAllInode] in Hrun.
  destruct (ReadDir_ll parent m) as [m1 [dentries [e|]]].
  - injection Hrun as <- <- <-. cbn. split; reflexivity.
  - apply (lookupAllInode_range_spec _ IH) in Hrun
      as (sub & -> & Hin & Hdir).
    cbn in Hin. split.
    + rewrite Hin. cbn. reflexivity.
    + cbn. constructor. rewrite Hdir. reflexivity.
Qed.

Lemma lookupAllInode_range_more
  (rec rec' : N -> Meta -> option (list N * Meta * list ReadDirEvent)) :
  (forall p m r, rec p m = Some r -> rec' p m = Some r) ->
  forall dentries acc m t r,
    lookupAllInode_range rec dentries acc m t = Some r ->
    lookupAllInode_range rec' dentries acc m t = Some r.
Proof.
  intros Hmore dentries.
  induction dentries as [|d rest IH]; intros acc m t r Hrun; [exact Hrun|].
  cbn [lookupAllInode_range] in *.
  destruct (IsRegular (Type_ d)); [now apply IH|].
  destruct (IsDir (Type_ d)); [|now apply IH].
  destruct (rec (Inode d) m) as [[[newInodes m1] t1]|] eqn:Hcall;
    [|discriminate].
  rewrite (Hmore _ _ _ Hcall). now apply IH.
Qed.

(** A deeper bound changes nothing once the walk returns. *)
Lemma lookupAllInode_more (depth depth' : nat) :
  (depth <= depth')%nat ->
  forall parent m r,
    lookupAllInode depth parent m = Some r ->
    lookupAllInode depth' parent m = Some r.
Proof.
  revert depth'.
  induction depth as [|depth IH]; intros depth' Hle parent m r Hrun;
    [discriminate|].
  destruct depth' as [|depth']; [lia|].
  cbn [lookupAllInode] in *.
  destruct (ReadDir_ll parent m) as [m1 [dentries [e|]]]; [exact Hrun|].
  revert Hrun. apply lookupAllInode_range_more.
  apply IH. lia.
Qed.

Lemma lookupAllInode_range_returns
  (rec : N -> Meta -> option (list N * Meta * list ReadDirEvent))
  (dentries : list Dentry) :
  (forall d, d ∈ dentries ->
     IsRegular (Type_ d) = false -> IsDir (Type_ d) = true ->
     forall m, is_Some (rec (Inode d) m)) ->
  forall acc m t, is_Some (lookupAllInode_range rec dentries acc m t).
Proof.
  induction dentries as [|d rest IH]; intros Hrec acc m t; [now eexists|].
  cbn [lookupAllInode_range].
  assert (Hrest : forall d', d' ∈ rest ->
            IsRegular (Type_ d') = false -> IsDir (Type_ d') = true ->
            forall m, is_Some (rec (Inode d') m)).
  { intros d' Hin. apply Hrec. apply elem_of_cons. now right. }
  destruct (IsRegular (Type_ d)) eqn:Hreg; [now apply IH|].
  destruct (IsDir (Type_ d)) eqn:Hd; [|now apply IH].
  destruct (Hrec d (proj2 (elem_of_cons rest d d) (or_introl eq_refl))
              Hreg Hd m)
    as [[[newInodes m1] t1] ->].
  now apply IH.
Qed.

(** X20.  On a volume without cycles, that is, one whose directories have
    a rank that decreases from a directory to the directories it lists,
    the walk returns: every bound beyond the rank of the directory it
    starts from gives one and the same result. *)
Theorem lookupAllInode_returns (rank : N -> nat) (parent : N) (m : Meta) :
  (forall dir m0 m1 dentries d,
     ReadDir_ll dir m0 = (m1, (dentries, None)) ->
     d ∈ dentries ->
     IsRegular (Type_ d) = false -> IsDir (Type_ d) = true ->
     (rank (Inode d) < rank dir)%nat) ->
  exists r,
    forall depth, (rank parent < depth)%nat ->
      lookupAllInode depth parent m = Some r.
Proof.
  intros Hrank.
  assert (Hsome : forall depth parent m,
            (rank parent < depth)%nat ->
            is_Some (lookupAllInode depth parent m)).
  { clear parent m.
    induction depth as [|depth IH]; intros parent m Hlt; [lia|].
    cbn [lookupAllInode].
    destruct (ReadDir_ll parent m) as [m1 [dentries [e|]]] eqn:Hread;
      [now eexists|].
    apply lookupAllInode_range_returns.
    intros d Hin Hreg Hd m2. apply IH.
    specialize (Hrank parent m m1 dentries d Hread Hin Hreg Hd). lia. }
  destruct (Hsome (S (rank parent)) parent m) as [r Hr]; [lia|].
  exists r. intros depth Hlt.
  apply (lookupAllInode_more (S (rank parent))); [lia | exact Hr].
Qed.

(** X21.  The inodes the walk returns are, up to their order, the regular
    files of the listings it obtained: a file is returned once for each
    time a listing names it, a directory whose listing failed contributes
    nothing and the failure is not reported, and what is neither a regular
    file nor a directory is left out. *)
Theorem lookupAllInode_regular_files (depth : nat) (parent : N) (m m' : Meta)
  (inodes : list N) (t : list ReadDirEvent) :
  lookupAllInode depth parent m = Some (inodes, m', t) ->
  inodes ≡ₚ listed regular_of t.
Proof. intros Hrun. now apply lookupAllInode_spec in Hrun. Qed.

(** X22.  The walk lists the directory it starts from and, once for each
    time a listing names it, every directory the listings it obtained
    name; it lists nothing else. *)
Theorem lookupAllInode_directories_read (depth : nat) (parent : N)
  (m m' : Meta) (inodes : list N) (t : list ReadDirEvent) :
  lookupAllInode depth parent m = Some (inodes, m', t) ->
  directory_read <$> t ≡ₚ parent :: listed directories_of t.
Proof. intros Hrun. now apply lookupAllInode_spec in Hrun. Qed.

End Walking.

Lemma lookupAllInode_returns_witness :
  exists r, forall depth, (2 < depth)%nat ->
    lookupAllInode depth 1 tt = Some r.
Proof.
  refine (lookupAllInode_returns (Mw := SimWalk.meta) SimWalk.rank 1 tt _).
  intros parent m m1 dentries d Hread Hin Hreg Hd.
  cbn in Hread.
  destruct (parent =? 1)%N eqn:H1.
  - apply N.eqb_eq in H1 as ->. injection Hread as _ <-.
    repeat (apply elem_of_cons in Hin as [->|Hin];
            [first [discriminate | cbn; lia]|]).
    inversion Hin.
  - destruct (parent =? 2)%N eqn:H2; [|discriminate].
    apply N.eqb_eq in H2 as ->. injection Hread as _ <-.
    repeat (apply elem_of_cons in Hin as [->|Hin];
            [first [discriminate | cbn; lia]|]).
    inversion Hin.
Defined.

Lemma lookupAllInode_regular_files_witness :
  [10%N; 20%N] ≡ₚ listed regular_of SimWalk.reads.
Proof.
  apply (lookupAllInode_regular_files (Mw := SimWalk.meta) 3 1 tt tt).
  reflexivity.
Defined.

Lemma lookupAllInode_directories_read_witness :
  directory_read <$> SimWalk.reads
    ≡ₚ 1%N :: listed directories_of SimWalk.reads.
Proof.
  apply (lookupAllInode_directories_read (Mw := SimWalk.meta) 3 1 tt tt
           [10%N; 20%N]).
  reflexivity.
Defined.
